(** * Lab05B pallet/container simulator: the 3D placement editor

    A shallow embedding of the interactive placement code of the front end:

    - [SimCanvas.tsx] : the batch data model ([SimProduct], [SimPallet],
      [SimOrder], [SimBatch]) and the two rotation tables [rotH] / [rotV]
      with the click handlers of the rotation buttons;
    - [Scene.tsx]     : the flat item list [allItems] and the tree patch
      [setItem];
    - [MoveModel.tsx] : [getRotDim], the scale and position conversions and
      the recursive collision resolver [getNewPos].

    JavaScript numbers that carry geometry are modelled twice.  The main
    development takes them as exact rationals ([Q]); equality of two computed
    coordinates is then [Qeq] ([==]).  What is proved there about the tree,
    the choice of the obstacle, the recursion and the bounds rests on the
    structure of the code and on comparisons.  Module [Binary64] transcribes
    the geometry and the resolver once more on IEEE 754 binary64 values,
    which is what the code computes with; where rounding makes the code
    differ from the exact reading, the difference is shown there on concrete
    batches.  Identifiers and counters are integers ([Z]).  The rotation
    code, typed [0 | 1 | 2 | 3 | 4 | 5] in the source, is an enumeration. *)

From Stdlib Require Import String QArith Qminmax ZArith List Bool Lia Lqa.
From Stdlib Require Import Permutation.
From Stdlib Require Import Floats.
Import ListNotations.

Local Open Scope Q_scope.

(** ** Data model (SimCanvas.tsx) *)

Inductive Rotation : Type := R0 | R1 | R2 | R3 | R4 | R5.

Definition rot_code (r : Rotation) : Z :=
  match r with
  | R0 => 0 | R1 => 1 | R2 => 2 | R3 => 3 | R4 => 4 | R5 => 5
  end%Z.

(** A JavaScript [[number, number, number]] tuple. *)
Definition Vec3 : Type := (Q * Q * Q)%type.

(** The [mastertype] discriminator of an item; a bare order has none. *)
Inductive MasterType : Type := product | sim_batch.

Record SimProduct : Type := mkSimProduct {
  p_batchdetailid : Z;
  p_masterid : Z;
  p_code : string;
  p_name : string;
  p_length : Q;
  p_width : Q;
  p_height : Q;
  p_maxstack : Z;
  p_isfragile : bool;
  p_istop : bool;
  p_notstack : bool;
  p_issideUp : bool;
  p_color : string;
  p_position : Vec3;
  p_rotation : Rotation;
  p_no : option Z;
  p_qtt : Z
}.

Record SimOrder : Type := mkSimOrder {
  orderid : Z;
  ordername : string;
  ordernumber : string;
  products : list SimProduct
}.

Record SimPallet : Type := mkSimPallet {
  s_batchdetailid : Z;
  s_masterid : Z;
  s_code : string;
  s_name : string;
  s_length : Q;
  s_width : Q;
  s_height : Q;
  s_loadlength : Q;
  s_loadwidth : Q;
  s_loadheight : Q;
  s_color : string;
  s_position : Vec3;
  s_rotation : Rotation;
  orders : list SimOrder
}.

(** [SimOrder | SimPallet], an entry of [SimBatch.details]. *)
Inductive Detail : Type :=
| DOrder (o : SimOrder)
| DPallet (s : SimPallet).

(** [SimPallet | SimProduct], what the scene places and moves. *)
Inductive SimBox : Type :=
| BPallet (s : SimPallet)
| BProduct (p : SimProduct).

Inductive BatchType : Type := pallet | container.

Record SimBatch : Type := mkSimBatch {
  batchid : Z;
  batchname : string;
  batchtype : BatchType;
  b_length : Q;
  b_width : Q;
  b_height : Q;
  b_loadlength : Q;
  b_loadwidth : Q;
  b_loadheight : Q;
  b_color : string;
  details : list Detail
}.

Definition mastertype (item : SimBox) : MasterType :=
  match item with
  | BPallet _ => sim_batch
  | BProduct _ => product
  end.

Definition batchdetailid (item : SimBox) : Z :=
  match item with
  | BPallet s => s_batchdetailid s
  | BProduct p => p_batchdetailid p
  end.

Definition length_of (item : SimBox) : Q :=
  match item with BPallet s => s_length s | BProduct p => p_length p end.

Definition width_of (item : SimBox) : Q :=
  match item with BPallet s => s_width s | BProduct p => p_width p end.

Definition height_of (item : SimBox) : Q :=
  match item with BPallet s => s_height s | BProduct p => p_height p end.

Definition position (item : SimBox) : Vec3 :=
  match item with BPallet s => s_position s | BProduct p => p_position p end.

Definition rotation (item : SimBox) : Rotation :=
  match item with BPallet s => s_rotation s | BProduct p => p_rotation p end.

(** Object spread with one field overwritten: [{...x, field: v}]. *)
Definition product_with_rotation (p : SimProduct) (r : Rotation) : SimProduct :=
  mkSimProduct (p_batchdetailid p) (p_masterid p) (p_code p) (p_name p)
    (p_length p) (p_width p) (p_height p) (p_maxstack p) (p_isfragile p)
    (p_istop p) (p_notstack p) (p_issideUp p) (p_color p) (p_position p)
    r (p_no p) (p_qtt p).

Definition product_with_position (p : SimProduct) (v : Vec3) : SimProduct :=
  mkSimProduct (p_batchdetailid p) (p_masterid p) (p_code p) (p_name p)
    (p_length p) (p_width p) (p_height p) (p_maxstack p) (p_isfragile p)
    (p_istop p) (p_notstack p) (p_issideUp p) (p_color p) v
    (p_rotation p) (p_no p) (p_qtt p).

Definition pallet_with_rotation (s : SimPallet) (r : Rotation) : SimPallet :=
  mkSimPallet (s_batchdetailid s) (s_masterid s) (s_code s) (s_name s)
    (s_length s) (s_width s) (s_height s) (s_loadlength s) (s_loadwidth s)
    (s_loadheight s) (s_color s) (s_position s) r (orders s).

Definition pallet_with_position (s : SimPallet) (v : Vec3) : SimPallet :=
  mkSimPallet (s_batchdetailid s) (s_masterid s) (s_code s) (s_name s)
    (s_length s) (s_width s) (s_height s) (s_loadlength s) (s_loadwidth s)
    (s_loadheight s) (s_color s) v (s_rotation s) (orders s).

Definition order_with_products (o : SimOrder) (ps : list SimProduct) : SimOrder :=
  mkSimOrder (orderid o) (ordername o) (ordernumber o) ps.

Definition batch_with_details (b : SimBatch) (ds : list Detail) : SimBatch :=
  mkSimBatch (batchid b) (batchname b) (batchtype b) (b_length b) (b_width b)
    (b_height b) (b_loadlength b) (b_loadwidth b) (b_loadheight b) (b_color b) ds.

Definition box_with_position (item : SimBox) (v : Vec3) : SimBox :=
  match item with
  | BPallet s => BPallet (pallet_with_position s v)
  | BProduct p => BProduct (product_with_position p v)
  end.

(** ** Spatial model (MoveModel.tsx) *)

(** [getRotDim]: the [default] branch of the source's [switch] repeats case 0
    and is unreachable for a typed rotation. *)
Definition getRotDim (item : SimBox) : Vec3 :=
  let loadHeight :=
    match item with
    | BPallet s => s_loadheight s
    | BProduct _ => 0
    end in
  match rotation item with
  | R0 => (length_of item, height_of item + loadHeight, width_of item)
  | R1 => (width_of item, height_of item + loadHeight, length_of item)
  | R2 => (height_of item + loadHeight, length_of item, width_of item)
  | R3 => (width_of item, length_of item, height_of item + loadHeight)
  | R4 => (length_of item, width_of item, height_of item + loadHeight)
  | R5 => (height_of item + loadHeight, width_of item, length_of item)
  end.

Definition vmap (f : Q -> Q) (v : Vec3) : Vec3 :=
  let '(a, b, c) := v in (f a, f b, f c).

(** Componentwise value equality of two vectors. *)
Definition veq (u v : Vec3) : Prop :=
  let '(a, b, c) := u in
  let '(a', b', c') := v in
  a == a' /\ b == b' /\ c == c'.

(** Array indexing [v[i]] on a three-element tuple. *)
Definition vget (v : Vec3) (i : nat) : Q :=
  let '(a, b, c) := v in
  match i with
  | O => a
  | S O => b
  | _ => c
  end.

Definition vlist (v : Vec3) : list Q :=
  let '(a, b, c) := v in [a; b; c].

(** Number comparisons of the source, as boolean tests on rationals. *)
Definition Qgeb (a b : Q) : bool := Qle_bool b a.          (* a >= b *)
Definition Qgtb (a b : Q) : bool := negb (Qle_bool a b).   (* a >  b *)
Definition Qltb (a b : Q) : bool := negb (Qle_bool b a).   (* a <  b *)
Definition Qneqb (a b : Q) : bool := negb (Qeq_bool a b).  (* a !== b *)

(** [Array.prototype.reduce] and [Array.prototype.filter] with the element
    index passed to the callback. *)
Definition indexed {A : Type} (l : list A) : list (nat * A) :=
  combine (seq 0 (length l)) l.

Definition reduce_i {A B : Type} (f : B -> A -> nat -> B) (l : list A) (init : B) : B :=
  fold_left (fun ret ia => f ret (snd ia) (fst ia)) (indexed l) init.

Definition filter_i {A : Type} (f : A -> nat -> bool) (l : list A) : list A :=
  map snd (filter (fun ia => f (snd ia) (fst ia)) (indexed l)).

(** [newPosArray.map((dim, id) => ...)] on a three-element tuple. *)
Definition vmap_i (f : Q -> nat -> Q) (v : Vec3) : Vec3 :=
  let '(a, b, c) := v in (f a 0%nat, f b 1%nat, f c 2%nat).

(** The properties of a [MoveModel] component the geometry depends on. *)
Record boxprops : Type := mkboxprops {
  isSelected : bool;
  isTransparent : bool;
  isEdit : bool;
  allItems : list SimBox;
  contSize : Vec3;
  data : SimBox;
  renderScale : Q
}.

Definition adjustScale (props : boxprops) (size : Vec3) : Vec3 :=
  vmap (fun v => v / renderScale props) size.

Definition readjustScale (props : boxprops) (size : Vec3) : Vec3 :=
  vmap (fun v => v * renderScale props) size.

Definition adjustPos (props : boxprops) (pos size : Vec3) : Vec3 :=
  (vget pos 0 + ((vget size 0 - vget (contSize props) 0) / 2),
   vget pos 1 + (vget size 1 / 2),
   vget pos 2 + ((vget size 2 - vget (contSize props) 2) / 2)).

Definition readjustPos (props : boxprops) (pos size : Vec3) : Vec3 :=
  (vget pos 0 - ((vget size 0 - vget (contSize props) 0) / 2),
   vget pos 1 - (vget size 1 / 2),
   vget pos 2 - ((vget size 2 - vget (contSize props) 2) / 2)).

(** [[p[0], p[2], p[1]]]: stored positions keep the vertical axis last, the
    scene keeps it in the middle. *)
Definition swapYZ (p : Vec3) : Vec3 :=
  (vget p 0, vget p 2, vget p 1).

Definition boxOrien (props : boxprops) : Vec3 :=
  adjustScale props (getRotDim (data props)).

Definition boxPos (props : boxprops) : Vec3 :=
  adjustScale props
    (adjustPos props (swapYZ (position (data props))) (getRotDim (data props))).

Definition adjustedContSize (props : boxprops) : Vec3 :=
  adjustScale props (contSize props).

Definition pallet_min (props : boxprops) : Vec3 :=
  ((vget (boxOrien props) 0 - vget (adjustedContSize props) 0) / 2,
   vget (boxOrien props) 1 / 2,
   (vget (boxOrien props) 2 - vget (adjustedContSize props) 2) / 2).

Definition pallet_max (props : boxprops) : Vec3 :=
  ((vget (adjustedContSize props) 0 - vget (boxOrien props) 0) / 2,
   vget (adjustedContSize props) 1 - (vget (boxOrien props) 1 / 2),
   (vget (adjustedContSize props) 2 - vget (boxOrien props) 2) / 2).

Definition pallet_minmax (props : boxprops) : list Q :=
  [vget (pallet_min props) 0; vget (pallet_max props) 0;
   vget (pallet_min props) 1; vget (pallet_max props) 1;
   vget (pallet_min props) 2; vget (pallet_max props) 2].

(** ** Collision resolver (MoveModel.tsx, [getNewPos]) *)

Definition PosArray_min (props : boxprops) (newPosArray : Vec3) : Vec3 :=
  (vget newPosArray 0 - (vget (boxOrien props) 0 / 2),
   vget newPosArray 1 - (vget (boxOrien props) 1 / 2),
   vget newPosArray 2 - (vget (boxOrien props) 2 / 2)).

Definition PosArray_max (props : boxprops) (newPosArray : Vec3) : Vec3 :=
  (vget newPosArray 0 + (vget (boxOrien props) 0 / 2),
   vget newPosArray 1 + (vget (boxOrien props) 1 / 2),
   vget newPosArray 2 + (vget (boxOrien props) 2 / 2)).

Definition box_pos (props : boxprops) (box : SimBox) : Vec3 :=
  adjustScale props (adjustPos props (swapYZ (position box)) (getRotDim box)).

Definition rotatedDim (props : boxprops) (box : SimBox) : Vec3 :=
  adjustScale props (getRotDim box).

Definition box_min (props : boxprops) (box : SimBox) : Vec3 :=
  (vget (box_pos props box) 0 - (vget (rotatedDim props box) 0 / 2),
   vget (box_pos props box) 1 - (vget (rotatedDim props box) 1 / 2),
   vget (box_pos props box) 2 - (vget (rotatedDim props box) 2 / 2)).

Definition box_max (props : boxprops) (box : SimBox) : Vec3 :=
  (vget (box_pos props box) 0 + (vget (rotatedDim props box) 0 / 2),
   vget (box_pos props box) 1 + (vget (rotatedDim props box) 1 / 2),
   vget (box_pos props box) 2 + (vget (rotatedDim props box) 2 / 2)).

(** The intersection test inside the first [reduce]. *)
Definition intersects (props : boxprops) (newPosArray : Vec3) (box : SimBox) : bool :=
  negb
    ((Qgeb (vget (box_min props box) 0) (vget (PosArray_max props newPosArray) 0)
      || Qgeb (vget (PosArray_min props newPosArray) 0) (vget (box_max props box) 0))
     || (Qgeb (vget (box_min props box) 1) (vget (PosArray_max props newPosArray) 1)
         || Qgeb (vget (PosArray_min props newPosArray) 1) (vget (box_max props box) 1))
     || (Qgeb (vget (box_min props box) 2) (vget (PosArray_max props newPosArray) 2)
         || Qgeb (vget (PosArray_min props newPosArray) 2) (vget (box_max props box) 2))).

(** The first [reduce]: [{ intersectingBox, index }], both [null] at the start. *)
Definition intersecting_step (props : boxprops) (newPosArray : Vec3)
    (ret : option (SimBox * nat)) (box : SimBox) (index : nat) : option (SimBox * nat) :=
  if negb (Z.eqb (batchdetailid box) (batchdetailid (data props))) then
    if intersects props newPosArray box then Some (box, index) else ret
  else ret.

Definition intersecting (props : boxprops) (boxes : list SimBox) (newPosArray : Vec3)
    : option (SimBox * nat) :=
  reduce_i (intersecting_step props newPosArray) boxes None.

(** Where the centre has to be, on one axis, to touch each face of the obstacle. *)
Definition adjustedPos (props : boxprops) (intersectingBox : SimBox) : list Q :=
  [vget (box_min props intersectingBox) 0 - (vget (boxOrien props) 0 / 2);
   vget (box_max props intersectingBox) 0 + (vget (boxOrien props) 0 / 2);
   vget (box_min props intersectingBox) 1 - (vget (boxOrien props) 1 / 2);
   vget (box_max props intersectingBox) 1 + (vget (boxOrien props) 1 / 2);
   vget (box_min props intersectingBox) 2 - (vget (boxOrien props) 2 / 2);
   vget (box_max props intersectingBox) 2 + (vget (boxOrien props) 2 / 2)].

(** Penetration depth through each face. *)
Definition intersections (props : boxprops) (intersectingBox : SimBox)
    (newPosArray : Vec3) : list Q :=
  [vget (PosArray_max props newPosArray) 0 - vget (box_min props intersectingBox) 0;
   vget (box_max props intersectingBox) 0 - vget (PosArray_min props newPosArray) 0;
   vget (PosArray_max props newPosArray) 1 - vget (box_min props intersectingBox) 1;
   vget (box_max props intersectingBox) 1 - vget (PosArray_min props newPosArray) 1;
   vget (PosArray_max props newPosArray) 2 - vget (box_min props intersectingBox) 2;
   vget (box_max props intersectingBox) 2 - vget (PosArray_min props newPosArray) 2].

(** The second [reduce]: [[id, intersect]], [[null, null]] at the start. *)
Definition min_intersection_step (props : boxprops) (intersectingBox : SimBox)
    (PosArray newPosArray : Vec3)
    (ret : option (nat * Q)) (intersect : Q) (id : nat) : option (nat * Q) :=
  if Qneqb (vget newPosArray (id / 2)) (vget PosArray (id / 2)) then ret
  else if (id mod 2 =? 0)%nat
          && Qgtb (nth id (pallet_minmax props) 0) (nth id (adjustedPos props intersectingBox) 0)
  then ret
  else if (id mod 2 =? 1)%nat
          && Qltb (nth id (pallet_minmax props) 0) (nth id (adjustedPos props intersectingBox) 0)
  then ret
  else match ret with
       | None => Some (id, intersect)
       | Some (_, r1) =>
           if Qgtb intersect 0 && Qgtb r1 intersect then Some (id, intersect) else ret
       end.

Definition min_intersection (props : boxprops) (intersectingBox : SimBox)
    (PosArray newPosArray : Vec3) : option (nat * Q) :=
  reduce_i (min_intersection_step props intersectingBox PosArray newPosArray)
    (intersections props intersectingBox newPosArray) None.

Definition tempPosArray (props : boxprops) (intersectingBox : SimBox)
    (newPosArray : Vec3) (id0 : nat) : Vec3 :=
  vmap_i (fun dim id =>
            if (id =? id0 / 2)%nat then nth id0 (adjustedPos props intersectingBox) 0
            else dim)
         newPosArray.

(** One activation of [getNewPos]: either it returns a position, or it calls
    itself on a shorter list with a new working position ([PosArray] is
    passed on unchanged).  [matrix] is the translation currently held by the
    drag gizmo's matrix. *)
Inductive Activation : Type :=
| Return (pos : Vec3)
| Recurse (boxes : list SimBox) (newPosArray : Vec3).

Definition getNewPos_body (props : boxprops) (matrix : Vec3)
    (boxes : list SimBox) (PosArray : Vec3) (newPosArray0 : option Vec3) : Activation :=
  let newPosArray := match newPosArray0 with Some v => v | None => PosArray end in
  match intersecting props boxes newPosArray with
  | None => Return newPosArray
  | Some (intersectingBox, index) =>
      match min_intersection props intersectingBox PosArray newPosArray with
      | None =>
          Recurse (filter_i (fun _ i => negb (i =? index)%nat) boxes) matrix
      | Some (id0, _) =>
          Recurse (filter_i (fun _ i => negb (i =? index)%nat) boxes)
                  (tempPosArray props intersectingBox newPosArray id0)
      end
  end.

(** The recursion of [getNewPos], [fuel] bounding its depth; [None] only
    when the bound is hit. *)
Fixpoint getNewPos_fuel (fuel : nat) (props : boxprops) (matrix : Vec3)
    (boxes : list SimBox) (PosArray : Vec3) (newPosArray : option Vec3) : option Vec3 :=
  match fuel with
  | O => None
  | S fuel' =>
      match getNewPos_body props matrix boxes PosArray newPosArray with
      | Return pos => Some pos
      | Recurse boxes' newPosArray' =>
          getNewPos_fuel fuel' props matrix boxes' PosArray (Some newPosArray')
      end
  end.

Definition getNewPos (props : boxprops) (matrix : Vec3)
    (boxes : list SimBox) (PosArray : Vec3) (newPosArray : option Vec3) : option Vec3 :=
  getNewPos_fuel (S (length boxes)) props matrix boxes PosArray newPosArray.

(** [Vector3.clamp(min, max)] of three.js: componentwise
    [max(min, min(max, v))]. *)
Definition clamp (v lo hi : Vec3) : Vec3 :=
  (Qmax (vget lo 0) (Qmin (vget hi 0) (vget v 0)),
   Qmax (vget lo 1) (Qmin (vget hi 1) (vget v 1)),
   Qmax (vget lo 2) (Qmin (vget hi 2) (vget v 2))).

(** [onDrag]: the translation written back into the gizmo matrix. *)
Definition onDrag (props : boxprops) (matrix : Vec3) (matrix_ : Vec3) : option Vec3 :=
  getNewPos props matrix (allItems props)
    (clamp matrix_ (pallet_min props) (pallet_max props)) None.

(** [onDragEnd]: the item handed to [setItem]. *)
Definition onDragEnd (props : boxprops) (matrix : Vec3) : SimBox :=
  let convertPos := readjustPos props (readjustScale props matrix) (getRotDim (data props)) in
  box_with_position (data props) (swapYZ convertPos).

(** ** Scene graph (Scene.tsx) *)

Module Scene.

(** [data?.details.map(...).flat()]: a sub-pallet is one item, a bare order
    contributes each of its products. *)
Definition allItems (data : option SimBatch) : option (list SimBox) :=
  match data with
  | None => None
  | Some d =>
      Some (flat_map (fun detail =>
                        match detail with
                        | DPallet s => [BPallet s]
                        | DOrder o => map BProduct (products o)
                        end)
                     (details d))
  end.

(** [setItem]: the new [data] state ([undefined] stays [undefined]). *)
Definition setItem (data : option SimBatch) (item : SimBox) : option SimBatch :=
  match data with
  | None => None
  | Some d =>
      let newDetails :=
        map (fun detail =>
               match item with
               | BPallet it =>
                   match detail with
                   | DOrder _ => detail
                   | DPallet s =>
                       if negb (Z.eqb (s_batchdetailid s) (s_batchdetailid it))
                       then detail
                       else DPallet it
                   end
               | BProduct it =>
                   match detail with
                   | DPallet _ => detail
                   | DOrder o =>
                       DOrder (order_with_products o
                                 (map (fun product =>
                                         if negb (Z.eqb (p_batchdetailid product)
                                                        (p_batchdetailid it))
                                         then product
                                         else it)
                                      (products o)))
                   end
               end)
            (details d) in
      Some (batch_with_details d newDetails)
  end.

(** The properties [Scene] passes to the [MoveModel] of one item. *)
Definition moveModelProps (d : SimBatch) (items : list SimBox)
    (selectedItem : option SimBox) (edit : bool) (scale : Q) (detail : SimBox) : boxprops :=
  mkboxprops
    (match selectedItem with
     | Some s => Z.eqb (batchdetailid s) (batchdetailid detail)
     | None => false
     end)
    (match selectedItem with
     | Some s => negb (Z.eqb (batchdetailid s) (batchdetailid detail))
     | None => false
     end)
    edit
    items
    (b_loadlength d, b_loadheight d, b_loadwidth d)
    detail
    scale.

End Scene.

(** ** Rotation controls (SimCanvas.tsx) *)

Module SimCanvas.

Definition rotH (r : Rotation) : Rotation :=
  match r with
  | R0 => R1
  | R1 => R0
  | R2 => R3
  | R3 => R2
  | R4 => R5
  | R5 => R4
  end.

Definition rotV (r : Rotation) : Rotation :=
  match r with
  | R0 => R4
  | R1 => R3
  | R2 => R5
  | R3 => R1
  | R4 => R0
  | R5 => R2
  end.

Inductive Button : Type := RotateHorizontal | RotateVertical.

(** Which rotation buttons are rendered. *)
Definition rotationButtons (data : option SimBatch) (selectedItem : option SimBox)
    (edit : bool) : list Button :=
  match data, selectedItem with
  | Some _, Some sel =>
      if edit then
        RotateHorizontal ::
          match mastertype sel with
          | sim_batch => []
          | product => [RotateVertical]
          end
      else []
  | _, _ => []
  end.

(** [onClick] of the horizontal button: the new [data] state. *)
Definition onClickHorizontal (d : SimBatch) (selectedItem : option SimBox) : SimBatch :=
  match selectedItem with
  | None => d
  | Some sel =>
      let newDetails :=
        map (fun detail =>
               match mastertype sel with
               | sim_batch =>
                   match detail with
                   | DOrder _ => detail
                   | DPallet s =>
                       if negb (Z.eqb (s_batchdetailid s) (batchdetailid sel))
                       then detail
                       else DPallet (pallet_with_rotation s (rotH (s_rotation s)))
                   end
               | product =>
                   match detail with
                   | DPallet _ => detail
                   | DOrder o =>
                       DOrder (order_with_products o
                                 (map (fun p =>
                                         if negb (Z.eqb (p_batchdetailid p) (batchdetailid sel))
                                         then p
                                         else product_with_rotation p (rotH (p_rotation p)))
                                      (products o)))
                   end
               end)
            (details d) in
      batch_with_details d newDetails
  end.

(** [onClick] of the vertical button. *)
Definition onClickVertical (d : SimBatch) (selectedItem : option SimBox) : SimBatch :=
  match selectedItem with
  | None => d
  | Some sel =>
      let newDetails :=
        map (fun detail =>
               match detail with
               | DPallet _ => detail
               | DOrder o =>
                   DOrder (order_with_products o
                             (map (fun p =>
                                     if negb (Z.eqb (p_batchdetailid p) (batchdetailid sel))
                                     then p
                                     else product_with_rotation p (rotV (p_rotation p)))
                                  (products o)))
               end)
            (details d) in
      batch_with_details d newDetails
  end.

Definition onClick (b : Button) (d : SimBatch) (selectedItem : option SimBox) : SimBatch :=
  match b with
  | RotateHorizontal => onClickHorizontal d selectedItem
  | RotateVertical => onClickVertical d selectedItem
  end.

(** [setRenderScale]: the largest own or load dimension of the batch, 2
    without a batch ([unitScale] is 1). *)
Definition batchRenderScale (data : option SimBatch) : Q :=
  match data with
  | Some d =>
      Qmax (b_length d) (Qmax (b_width d) (Qmax (b_height d)
        (Qmax (b_loadheight d) (Qmax (b_loadlength d) (b_loadwidth d))))) / 1
  | None => 2
  end.

End SimCanvas.

(** ** Notions the statements are phrased in *)

(** The nominal height the mapping works on: load height is added for a
    sub-pallet, nothing for a box. *)
Definition nominalHeight (item : SimBox) : Q :=
  match item with
  | BPallet s => s_height s + s_loadheight s
  | BProduct p => p_height p + 0
  end.

(** The orientation table as the specification words it: rotation code to
    extents, from nominal [(L, H, W)]; codes outside 0..5 have no entry. *)
Definition rotatedDimensions_spec (code : Z) (L H W : Q) : option Vec3 :=
  match code with
  | 0%Z => Some (L, H, W)
  | 1%Z => Some (W, H, L)
  | 2%Z => Some (H, L, W)
  | 3%Z => Some (W, L, H)
  | 4%Z => Some (L, W, H)
  | 5%Z => Some (H, W, L)
  | _ => None
  end.

(** Every node of the detail tree: sub-pallets, the boxes of bare orders and
    the boxes of the orders of a sub-pallet. *)
Definition order_nodes (o : SimOrder) : list SimBox := map BProduct (products o).

Definition detail_nodes (d : Detail) : list SimBox :=
  match d with
  | DOrder o => order_nodes o
  | DPallet s => BPallet s :: flat_map order_nodes (orders s)
  end.

Definition tree_nodes (b : SimBatch) : list SimBox := flat_map detail_nodes (details b).

(** Strict overlap of two axis-aligned boxes on the three axes at once. *)
Definition overlap3 (amin amax bmin bmax : Vec3) : Prop :=
  forall axis : nat, (axis < 3)%nat ->
    vget amin axis < vget bmax axis /\ vget bmin axis < vget amax axis.

(** The dragged item, centred at [pos], against another item of the list. *)
Definition overlaps_item (props : boxprops) (pos : Vec3) (box : SimBox) : Prop :=
  overlap3 (PosArray_min props pos) (PosArray_max props pos)
           (box_min props box) (box_max props box).

Definition other (props : boxprops) (box : SimBox) : Prop :=
  batchdetailid box <> batchdetailid (data props).

Definition collision_free (props : boxprops) (boxes : list SimBox) (pos : Vec3) : Prop :=
  forall box, In box boxes -> other props box -> ~ overlaps_item props pos box.

(** [boxes.filter((element, i) => i !== index)], structurally. *)
Fixpoint remove_nth {A : Type} (index : nat) (l : list A) {struct l} : list A :=
  match l with
  | [] => []
  | x :: l' =>
      match index with
      | O => l'
      | S i => x :: remove_nth i l'
      end
  end.

(** How many items of the list are not the selected one. *)
Definition count_others (props : boxprops) (boxes : list SimBox) : nat :=
  List.length
    (filter (fun box => negb (Z.eqb (batchdetailid box) (batchdetailid (data props)))) boxes).

(** A whole drag gesture: [onDrag] for each pointer move, the gizmo matrix
    carried from one event to the next. *)
Fixpoint drag (props : boxprops) (matrix : Vec3) (moves : list Vec3) : option Vec3 :=
  match moves with
  | [] => Some matrix
  | m :: moves' =>
      match onDrag props matrix m with
      | Some matrix' => drag props matrix' moves'
      | None => None
      end
  end.

(** Sample data for the concrete scenarios. *)
Definition sampleBox (id : Z) (l w h : Q) (pos : Vec3) (r : Rotation) : SimProduct :=
  mkSimProduct id 0%Z "P" "box" l w h 1%Z false false false false "#fff" pos r None 1%Z.

Definition samplePallet (id : Z) (l w h lh : Q) (pos : Vec3) (r : Rotation)
    (os : list SimOrder) : SimPallet :=
  mkSimPallet id 0%Z "S" "pallet" l w h l w lh "#000" pos r os.

Definition sampleBatch (side : Q) (ds : list Detail) : SimBatch :=
  mkSimBatch 1%Z "batch" container side side side side side side "#ccc" ds.

(** The [MoveModel] of the selected item [sel] of batch [d], as [Scene]
    and [SimCanvas] set it up in edit mode. *)
Definition selectedProps (d : SimBatch) (sel : SimBox) : boxprops :=
  Scene.moveModelProps d
    (match Scene.allItems (Some d) with Some items => items | None => [] end)
    (Some sel) true (SimCanvas.batchRenderScale (Some d)) sel.

(** Scenario "two obstacles": a 10 x 10 x 10 container with three
    2 x 2 x 2 boxes standing on the floor; boxes 1 and 2 side by side along
    x, box 3 (the selected one) away from them along z. *)
Definition obstacle1 : SimProduct := sampleBox 1 2 2 2 (3, 4, 0) R0.
Definition obstacle2 : SimProduct := sampleBox 2 2 2 2 (5, 4, 0) R0.
Definition dragged3 : SimProduct := sampleBox 3 2 2 2 (4, 7, 0) R0.

Definition twoObstacles : SimBatch :=
  sampleBatch 10 [DOrder (mkSimOrder 1 "o" "1" [obstacle1; obstacle2; dragged3])].

(** The drag target of the scenario, in render units: box 3 pushed along z
    until it overlaps boxes 1 and 2 by half a unit. *)
Definition twoObstaclesTarget : Vec3 := (0, 1 # 10, 3 # 20).

(** Scenario "tight fit": a 10 x 10 x 10 container; box 2 (6 long, 10 wide,
    10 high) fills it from x = 4 on; box 1 (6 x 4 x 2, turned by code 1 so
    that it is 4 along x) sits against it. *)
Definition slim1 : SimProduct := sampleBox 1 6 4 2 (0, 0, 0) R1.
Definition block2 : SimProduct := sampleBox 2 6 10 10 (4, 0, 0) R0.

Definition tightFit : SimBatch :=
  sampleBatch 10 [DOrder (mkSimOrder 1 "o" "1" [slim1; block2])].

(** The same batch after the horizontal rotation button was clicked with
    box 1 selected. *)
Definition tightFitRotated : SimBatch :=
  SimCanvas.onClick SimCanvas.RotateHorizontal tightFit (Some (BProduct slim1)).

(** Separation on one axis: the dragged box ends before the other begins,
    or begins after it ends. *)
Definition sep_axis (props : boxprops) (pos : Vec3) (box : SimBox) (k : nat) : Prop :=
  vget (PosArray_max props pos) k <= vget (box_min props box) k
  \/ vget (box_max props box) k <= vget (PosArray_min props pos) k.

(** The item [box] is cleared for good: the working position is separated
    from it on an axis that has already left its value in the drag target,
    an axis no later correction touches. *)
Definition frozen_sep (props : boxprops) (PosArray pos : Vec3) (box : SimBox) : Prop :=
  exists k : nat,
    (k < 3)%nat /\ sep_axis props pos box k /\ ~ vget pos k == vget PosArray k.

(** What holds at every activation that has not gone through the fallback:
    the list is a part of the full list [all], and every other item of
    [all] is still in the list or cleared for good. *)
Definition resolver_inv (props : boxprops) (all : list SimBox) (PosArray : Vec3)
    (boxes : list SimBox) (pos : Vec3) : Prop :=
  (forall b, In b boxes -> In b all)
  /\ (forall b, In b all -> other props b ->
                In b boxes \/ frozen_sep props PosArray pos b).

(** The table a rotation button applies. *)
Definition rotationTable (btn : SimCanvas.Button) : Rotation -> Rotation :=
  match btn with
  | SimCanvas.RotateHorizontal => SimCanvas.rotH
  | SimCanvas.RotateVertical => SimCanvas.rotV
  end.

Definition allRotations : list Rotation := [R0; R1; R2; R3; R4; R5].

(** Scenario "walled": a 10 x 10 x 10 container; box 1 is a wall (1 long,
    10 wide, 10 high) across the container, box 2 a 2 x 2 x 2 crate standing
    against it, box 9 (the selected one) a 2 x 2 x 2 box on the other side
    of the wall. *)
Definition wall1 : SimProduct := sampleBox 1 1 10 10 (5, 0, 0) R0.
Definition crate2 : SimProduct := sampleBox 2 2 2 2 (6, 4, 0) R0.
Definition dragged9 : SimProduct := sampleBox 9 2 2 2 (0, 4, 0) R0.

Definition walled : SimBatch :=
  sampleBatch 10 [DOrder (mkSimOrder 1 "o" "1" [wall1; crate2; dragged9])].

(** The drag target of the scenario, in render units: box 9 dropped onto
    the crate, closer to the wall than to the far side of the crate. *)
Definition walledTarget : Vec3 := (3 # 20, 1 # 10, 0).

(** ** What [Scene] renders around an item (Scene.tsx) *)

Module SceneRender.



(** The group that holds a sub-pallet and its load. *)
Definition palletGroupPosition (detail : SimPallet) (scale : Q) : Vec3 :=
  (0, - (s_loadheight detail - s_height detail) / 2 / scale, 0).

(** Where a box standing on a sub-pallet is put, relative to the sub-pallet. *)
Definition nestedBoxPosition (detail : SimPallet) (product : SimProduct) (scale : Q) : Vec3 :=
  ((vget (p_position product) 0 + (p_length product - s_loadlength detail) / 2) / scale,
   (vget (p_position product) 2 + p_height product / 2) / scale,
   (vget (p_position product) 1 + (p_width product - s_loadwidth detail) / 2) / scale).

End SceneRender.

(** ** The scene of the printed report (SceneStatic.tsx) *)

Module SceneStatic.

Definition renderScale (d : SimBatch) : Q :=
  Qmax (b_length d) (Qmax (b_width d) (Qmax (b_height d)
    (Qmax (b_loadheight d) (Qmax (b_loadlength d) (b_loadwidth d))))) / 1.

Definition adjustScale (d : SimBatch) (size : Vec3) : Vec3 :=
  vmap (fun v => v / renderScale d) size.

Definition adjustPos (pos size contSize : Vec3) : Vec3 :=
  (vget pos 0 + ((vget size 0 - vget contSize 0) / 2),
   vget pos 1 + (vget size 1 / 2),
   vget pos 2 + ((vget size 2 - vget contSize 2) / 2)).

Definition boxPos (d : SimBatch) (detail : SimBox) : Vec3 :=
  adjustScale d
    (adjustPos (vget (position detail) 0, vget (position detail) 2, vget (position detail) 1)
               (getRotDim detail)
               (b_loadlength d, b_loadheight d, b_loadwidth d)).

Definition nestedBoxPosition (d : SimBatch) (detail : SimPallet) (product : SimProduct) : Vec3 :=
  ((vget (p_position product) 0 + (p_length product - s_loadlength detail) / 2) / renderScale d,
   (vget (p_position product) 1 + p_height product / 2) / renderScale d,
   (vget (p_position product) 2 + (p_width product - s_loadwidth detail) / 2) / renderScale d).

End SceneStatic.

(** ** Order pager of the container page (DetailSection.tsx) *)

Module DetailSection.

Record ProductRow : Type := mkProductRow {
  no : Z;
  name : string;
  color : string
}.

Record OrderDetail : Type := mkOrderDetail {
  ordernumber : string;
  products : list ProductRow
}.

Definition ordersPerPage : nat := 1.

(** [Math.ceil(n / per)] on naturals. *)
Definition ceilDiv (n per : nat) : nat := ((n + (per - 1)) / per)%nat.

(** [Array.prototype.slice(begin, end)] for indices that are not negative. *)
Definition slice {A : Type} (l : list A) (b e : nat) : list A :=
  firstn (e - b) (skipn b l).

Definition totalOrderPages (details : list OrderDetail) : nat :=
  ceilDiv (length details) ordersPerPage.

Definition paginatedOrders (details : list OrderDetail) (currentOrderPage : nat)
    : list OrderDetail :=
  slice details ((currentOrderPage - 1) * ordersPerPage) (currentOrderPage * ordersPerPage).

(** The two pager buttons, as updates of [currentOrderPage]. *)
Definition prevPage (prev : nat) : nat := Nat.max (prev - 1) 1.

Definition nextPage (details : list OrderDetail) (prev : nat) : nat :=
  Nat.min (prev + 1) (totalOrderPages details).

End DetailSection.

(** ** Order pager of the pallet-on-container page (Detail-Section-PC.tsx) *)

Module DetailPCSection.

Record Product : Type := mkProduct {
  batchdetailid : Z;
  name : string;
  code : string;
  color : string;
  length : Q;
  width : Q;
  height : Q
}.

Record OrderDetail : Type := mkOrderDetail {
  orderid : Z;
  ordername : string;
  ordernumber : string;
  products : option (list Product)
}.

Record SimBatchDetail : Type := mkSimBatchDetail {
  sb_batchdetailid : Z;
  sb_mastertype : string;
  sb_name : string;
  orders : option (list OrderDetail)
}.

Definition ordersPerPage : nat := 1.

(** [batch.orders?.length || 0], summed over the details. *)
Definition totalOrders (details : list SimBatchDetail) : nat :=
  fold_left (fun acc batch =>
               (acc + match orders batch with
                      | Some os => List.length os
                      | None => 0
                      end)%nat)
            details 0%nat.

(** [Math.ceil(totalOrders / ordersPerPage) || 1]. *)
Definition totalPages (details : list SimBatchDetail) : nat :=
  let pages := DetailSection.ceilDiv (totalOrders details) ordersPerPage in
  if (pages =? 0)%nat then 1%nat else pages.

(** The inner [for] over the orders of one batch: the counter and the
    collected rows, with the [break] once a page is full. *)
Fixpoint innerLoop (currentPage : nat) (batch : SimBatchDetail) (os : list OrderDetail)
    (count : nat) (paginatedOrders : list (SimBatchDetail * OrderDetail))
    : nat * list (SimBatchDetail * OrderDetail) :=
  match os with
  | [] => (count, paginatedOrders)
  | order :: os' =>
      let count := S count in
      let paginatedOrders :=
        if ((currentPage - 1) * ordersPerPage <? count)%nat
           && (count <=? currentPage * ordersPerPage)%nat
        then paginatedOrders ++ [(batch, order)]
        else paginatedOrders in
      if (ordersPerPage <=? List.length paginatedOrders)%nat
      then (count, paginatedOrders)
      else innerLoop currentPage batch os' count paginatedOrders
  end.

(** The outer [for] over the details. *)
Fixpoint outerLoop (currentPage : nat) (details : list SimBatchDetail)
    (count : nat) (paginatedOrders : list (SimBatchDetail * OrderDetail))
    : nat * list (SimBatchDetail * OrderDetail) :=
  match details with
  | [] => (count, paginatedOrders)
  | batch :: details' =>
      let '(count, paginatedOrders) :=
        match orders batch with
        | Some os => innerLoop currentPage batch os count paginatedOrders
        | None => (count, paginatedOrders)
        end in
      if (ordersPerPage <=? List.length paginatedOrders)%nat
      then (count, paginatedOrders)
      else outerLoop currentPage details' count paginatedOrders
  end.

Definition paginatedOrders (details : list SimBatchDetail) (currentPage : nat)
    : list (SimBatchDetail * OrderDetail) :=
  snd (outerLoop currentPage details 0%nat []).

Definition prevPage (prev : nat) : nat := Nat.max (prev - 1) 1.

Definition nextPage (details : list SimBatchDetail) (prev : nat) : nat :=
  Nat.min (prev + 1) (totalPages details).

(** Every (batch, order) pair, in the order the loops visit them. *)
Definition orderRows (details : list SimBatchDetail) : list (SimBatchDetail * OrderDetail) :=
  flat_map (fun batch =>
              match orders batch with
              | Some os => map (fun order => (batch, order)) os
              | None => []
              end)
           details.

End DetailPCSection.

(** ** Further notions the statements are phrased in *)

(** The centre is within the clamp bounds of the gizmo. *)
Definition in_bounds (props : boxprops) (pos : Vec3) : Prop :=
  forall k : nat, (k < 3)%nat ->
    vget (pallet_min props) k <= vget pos k /\ vget pos k <= vget (pallet_max props) k.

(** The selected item, centred at [pos], lies within the load volume of the
    container: centred at the origin along x and z, standing on the floor. *)
Definition inside_container (props : boxprops) (pos : Vec3) : Prop :=
  - (vget (adjustedContSize props) 0 / 2) <= vget (PosArray_min props pos) 0
  /\ vget (PosArray_max props pos) 0 <= vget (adjustedContSize props) 0 / 2
  /\ 0 <= vget (PosArray_min props pos) 1
  /\ vget (PosArray_max props pos) 1 <= vget (adjustedContSize props) 1
  /\ - (vget (adjustedContSize props) 2 / 2) <= vget (PosArray_min props pos) 2
  /\ vget (PosArray_max props pos) 2 <= vget (adjustedContSize props) 2 / 2.

(** The selected item, as it is turned, is no larger than the load volume. *)
Definition fits (props : boxprops) : Prop :=
  forall k : nat, (k < 3)%nat -> vget (boxOrien props) k <= vget (adjustedContSize props) k.

(** The three guards of the second reduce: face [id] survives when its axis
    still has the target's coordinate and the corrected centre stays within
    the clamp bounds. *)
Definition admissible (props : boxprops) (intersectingBox : SimBox)
    (PosArray newPosArray : Vec3) (id : nat) : bool :=
  negb (Qneqb (vget newPosArray (id / 2)) (vget PosArray (id / 2)))
  && negb ((id mod 2 =? 0)%nat
           && Qgtb (nth id (pallet_minmax props) 0) (nth id (adjustedPos props intersectingBox) 0))
  && negb ((id mod 2 =? 1)%nat
           && Qltb (nth id (pallet_minmax props) 0) (nth id (adjustedPos props intersectingBox) 0)).

(** What [setItem] does to one entry of the flat item list. *)
Definition replaceItem (item b : SimBox) : SimBox :=
  match item, b with
  | BPallet it, BPallet s =>
      if Z.eqb (s_batchdetailid s) (s_batchdetailid it) then item else b
  | BProduct it, BProduct p =>
      if Z.eqb (p_batchdetailid p) (p_batchdetailid it) then item else b
  | _, _ => b
  end.

(** The callbacks of the [map]s over [details], named. *)
Definition flat_of_detail (detail : Detail) : list SimBox :=
  match detail with
  | DPallet s => [BPallet s]
  | DOrder o => map BProduct (products o)
  end.

Definition setItem_detail (item : SimBox) (detail : Detail) : Detail :=
  match item with
  | BPallet it =>
      match detail with
      | DOrder _ => detail
      | DPallet s =>
          if negb (Z.eqb (s_batchdetailid s) (s_batchdetailid it)) then detail else DPallet it
      end
  | BProduct it =>
      match detail with
      | DPallet _ => detail
      | DOrder o =>
          DOrder (order_with_products o
                    (map (fun product =>
                            if negb (Z.eqb (p_batchdetailid product) (p_batchdetailid it))
                            then product else it)
                         (products o)))
      end
  end.

(** What a click on a rotation button does to one entry of the flat list. *)
Definition box_with_rotation (b : SimBox) (r : Rotation) : SimBox :=
  match b with
  | BPallet s => BPallet (pallet_with_rotation s r)
  | BProduct p => BProduct (product_with_rotation p r)
  end.

Definition rotateItem (btn : SimCanvas.Button) (sel b : SimBox) : SimBox :=
  let hit :=
    match btn, mastertype sel, b with
    | SimCanvas.RotateHorizontal, sim_batch, BPallet _ => true
    | SimCanvas.RotateHorizontal, product, BProduct _ => true
    | SimCanvas.RotateVertical, _, BProduct _ => true
    | _, _, _ => false
    end in
  if hit && Z.eqb (batchdetailid b) (batchdetailid sel)
  then box_with_rotation b (rotationTable btn (rotation b))
  else b.

(** A sequence of clicks on the rotation buttons, applied to a rotation code. *)
Definition applyClicks (clicks : list SimCanvas.Button) (r : Rotation) : Rotation :=
  fold_left (fun r btn => rotationTable btn r) clicks r.

(** [props] with another item as its [data]. *)
Definition props_with_data (props : boxprops) (item : SimBox) : boxprops :=
  mkboxprops (isSelected props) (isTransparent props) (isEdit props) (allItems props)
    (contSize props) item (renderScale props).

(** What a rotation click never touches in an item. *)
Definition placement (b : SimBox) : Z * MasterType * Vec3 * Q * Q * Q :=
  (batchdetailid b, mastertype b, position b, length_of b, width_of b, height_of b).

(** ** The resolver on binary64 numbers *)

(** The same code with JavaScript numbers as what they are, IEEE 754
    binary64 values with every operation rounded.  The numbers of a batch
    as the server sends them (decimal literals, held as rationals in the
    records) become the nearest double; everything computed from them is
    computed in doubles. *)
Module Binary64.

Definition Vec3F : Type := (float * float * float)%type.

Definition Z2F (z : Z) : float :=
  match z with
  | Z0 => PrimFloat.zero
  | Zpos p => PrimFloat.of_uint63 (Uint63.of_Z (Zpos p))
  | Zneg p => PrimFloat.opp (PrimFloat.of_uint63 (Uint63.of_Z (Zpos p)))
  end.

(** The double nearest to a rational literal with small numerator and
    denominator: one correctly rounded division. *)
Definition Q2F (q : Q) : float := PrimFloat.div (Z2F (Qnum q)) (Z2F (Zpos (Qden q))).

Definition V2F (v : Vec3) : Vec3F :=
  let '(a, b, c) := v in (Q2F a, Q2F b, Q2F c).

Definition vgetF (v : Vec3F) (i : nat) : float :=
  let '(a, b, c) := v in
  match i with
  | O => a
  | S O => b
  | _ => c
  end.

Definition vmapF (f : float -> float) (v : Vec3F) : Vec3F :=
  let '(a, b, c) := v in (f a, f b, f c).

Definition vmapF_i (f : float -> nat -> float) (v : Vec3F) : Vec3F :=
  let '(a, b, c) := v in (f a 0%nat, f b 1%nat, f c 2%nat).

Definition two : float := Z2F 2.

(** The comparisons of the source. *)
Definition geF (a b : float) : bool := PrimFloat.leb b a.          (* a >= b *)
Definition gtF (a b : float) : bool := PrimFloat.ltb b a.          (* a >  b *)
Definition ltF (a b : float) : bool := PrimFloat.ltb a b.          (* a <  b *)
Definition neF (a b : float) : bool := negb (PrimFloat.eqb a b).   (* a !== b *)

Definition getRotDim (item : SimBox) : Vec3F :=
  let loadHeight :=
    match item with
    | BPallet s => Q2F (s_loadheight s)
    | BProduct _ => PrimFloat.zero
    end in
  let l := Q2F (length_of item) in
  let w := Q2F (width_of item) in
  let h := PrimFloat.add (Q2F (height_of item)) loadHeight in
  match rotation item with
  | R0 => (l, h, w)
  | R1 => (w, h, l)
  | R2 => (h, l, w)
  | R3 => (w, l, h)
  | R4 => (l, w, h)
  | R5 => (h, w, l)
  end.

Definition adjustScale (props : boxprops) (size : Vec3F) : Vec3F :=
  vmapF (fun v => PrimFloat.div v (Q2F (renderScale props))) size.

Definition readjustScale (props : boxprops) (size : Vec3F) : Vec3F :=
  vmapF (fun v => PrimFloat.mul v (Q2F (renderScale props))) size.

Definition adjustPos (props : boxprops) (pos size : Vec3F) : Vec3F :=
  (PrimFloat.add (vgetF pos 0)
     (PrimFloat.div (PrimFloat.sub (vgetF size 0) (Q2F (vget (contSize props) 0))) two),
   PrimFloat.add (vgetF pos 1) (PrimFloat.div (vgetF size 1) two),
   PrimFloat.add (vgetF pos 2)
     (PrimFloat.div (PrimFloat.sub (vgetF size 2) (Q2F (vget (contSize props) 2))) two)).

Definition readjustPos (props : boxprops) (pos size : Vec3F) : Vec3F :=
  (PrimFloat.sub (vgetF pos 0)
     (PrimFloat.div (PrimFloat.sub (vgetF size 0) (Q2F (vget (contSize props) 0))) two),
   PrimFloat.sub (vgetF pos 1) (PrimFloat.div (vgetF size 1) two),
   PrimFloat.sub (vgetF pos 2)
     (PrimFloat.div (PrimFloat.sub (vgetF size 2) (Q2F (vget (contSize props) 2))) two)).

Definition swapYZ (p : Vec3F) : Vec3F := (vgetF p 0, vgetF p 2, vgetF p 1).

Definition boxOrien (props : boxprops) : Vec3F :=
  adjustScale props (getRotDim (data props)).

Definition box_pos (props : boxprops) (box : SimBox) : Vec3F :=
  adjustScale props (adjustPos props (swapYZ (V2F (position box))) (getRotDim box)).

Definition boxPos (props : boxprops) : Vec3F := box_pos props (data props).

Definition adjustedContSize (props : boxprops) : Vec3F :=
  adjustScale props (V2F (contSize props)).

Definition pallet_min (props : boxprops) : Vec3F :=
  (PrimFloat.div (PrimFloat.sub (vgetF (boxOrien props) 0) (vgetF (adjustedContSize props) 0)) two,
   PrimFloat.div (vgetF (boxOrien props) 1) two,
   PrimFloat.div (PrimFloat.sub (vgetF (boxOrien props) 2) (vgetF (adjustedContSize props) 2)) two).

Definition pallet_max (props : boxprops) : Vec3F :=
  (PrimFloat.div (PrimFloat.sub (vgetF (adjustedContSize props) 0) (vgetF (boxOrien props) 0)) two,
   PrimFloat.sub (vgetF (adjustedContSize props) 1) (PrimFloat.div (vgetF (boxOrien props) 1) two),
   PrimFloat.div (PrimFloat.sub (vgetF (adjustedContSize props) 2) (vgetF (boxOrien props) 2)) two).

Definition pallet_minmax (props : boxprops) : list float :=
  [vgetF (pallet_min props) 0; vgetF (pallet_max props) 0;
   vgetF (pallet_min props) 1; vgetF (pallet_max props) 1;
   vgetF (pallet_min props) 2; vgetF (pallet_max props) 2].

Definition half (props : boxprops) (k : nat) : float :=
  PrimFloat.div (vgetF (boxOrien props) k) two.

Definition PosArray_min (props : boxprops) (newPosArray : Vec3F) : Vec3F :=
  (PrimFloat.sub (vgetF newPosArray 0) (half props 0),
   PrimFloat.sub (vgetF newPosArray 1) (half props 1),
   PrimFloat.sub (vgetF newPosArray 2) (half props 2)).

Definition PosArray_max (props : boxprops) (newPosArray : Vec3F) : Vec3F :=
  (PrimFloat.add (vgetF newPosArray 0) (half props 0),
   PrimFloat.add (vgetF newPosArray 1) (half props 1),
   PrimFloat.add (vgetF newPosArray 2) (half props 2)).

Definition rotatedDim (props : boxprops) (box : SimBox) : Vec3F :=
  adjustScale props (getRotDim box).

Definition box_min (props : boxprops) (box : SimBox) : Vec3F :=
  (PrimFloat.sub (vgetF (box_pos props box) 0) (PrimFloat.div (vgetF (rotatedDim props box) 0) two),
   PrimFloat.sub (vgetF (box_pos props box) 1) (PrimFloat.div (vgetF (rotatedDim props box) 1) two),
   PrimFloat.sub (vgetF (box_pos props box) 2) (PrimFloat.div (vgetF (rotatedDim props box) 2) two)).

Definition box_max (props : boxprops) (box : SimBox) : Vec3F :=
  (PrimFloat.add (vgetF (box_pos props box) 0) (PrimFloat.div (vgetF (rotatedDim props box) 0) two),
   PrimFloat.add (vgetF (box_pos props box) 1) (PrimFloat.div (vgetF (rotatedDim props box) 1) two),
   PrimFloat.add (vgetF (box_pos props box) 2) (PrimFloat.div (vgetF (rotatedDim props box) 2) two)).

Definition intersects (props : boxprops) (newPosArray : Vec3F) (box : SimBox) : bool :=
  negb
    ((geF (vgetF (box_min props box) 0) (vgetF (PosArray_max props newPosArray) 0)
      || geF (vgetF (PosArray_min props newPosArray) 0) (vgetF (box_max props box) 0))
     || (geF (vgetF (box_min props box) 1) (vgetF (PosArray_max props newPosArray) 1)
         || geF (vgetF (PosArray_min props newPosArray) 1) (vgetF (box_max props box) 1))
     || (geF (vgetF (box_min props box) 2) (vgetF (PosArray_max props newPosArray) 2)
         || geF (vgetF (PosArray_min props newPosArray) 2) (vgetF (box_max props box) 2))).

Definition intersecting_step (props : boxprops) (newPosArray : Vec3F)
    (ret : option (SimBox * nat)) (box : SimBox) (index : nat) : option (SimBox * nat) :=
  if negb (Z.eqb (batchdetailid box) (batchdetailid (data props))) then
    if intersects props newPosArray box then Some (box, index) else ret
  else ret.

Definition intersecting (props : boxprops) (boxes : list SimBox) (newPosArray : Vec3F)
    : option (SimBox * nat) :=
  reduce_i (intersecting_step props newPosArray) boxes None.

Definition adjustedPos (props : boxprops) (intersectingBox : SimBox) : list float :=
  [PrimFloat.sub (vgetF (box_min props intersectingBox) 0) (half props 0);
   PrimFloat.add (vgetF (box_max props intersectingBox) 0) (half props 0);
   PrimFloat.sub (vgetF (box_min props intersectingBox) 1) (half props 1);
   PrimFloat.add (vgetF (box_max props intersectingBox) 1) (half props 1);
   PrimFloat.sub (vgetF (box_min props intersectingBox) 2) (half props 2);
   PrimFloat.add (vgetF (box_max props intersectingBox) 2) (half props 2)].

Definition intersections (props : boxprops) (intersectingBox : SimBox)
    (newPosArray : Vec3F) : list float :=
  [PrimFloat.sub (vgetF (PosArray_max props newPosArray) 0) (vgetF (box_min props intersectingBox) 0);
   PrimFloat.sub (vgetF (box_max props intersectingBox) 0) (vgetF (PosArray_min props newPosArray) 0);
   PrimFloat.sub (vgetF (PosArray_max props newPosArray) 1) (vgetF (box_min props intersectingBox) 1);
   PrimFloat.sub (vgetF (box_max props intersectingBox) 1) (vgetF (PosArray_min props newPosArray) 1);
   PrimFloat.sub (vgetF (PosArray_max props newPosArray) 2) (vgetF (box_min props intersectingBox) 2);
   PrimFloat.sub (vgetF (box_max props intersectingBox) 2) (vgetF (PosArray_min props newPosArray) 2)].

Definition min_intersection_step (props : boxprops) (intersectingBox : SimBox)
    (PosArray newPosArray : Vec3F)
    (ret : option (nat * float)) (intersect : float) (id : nat) : option (nat * float) :=
  if neF (vgetF newPosArray (id / 2)) (vgetF PosArray (id / 2)) then ret
  else if (id mod 2 =? 0)%nat
          && gtF (nth id (pallet_minmax props) PrimFloat.zero)
                 (nth id (adjustedPos props intersectingBox) PrimFloat.zero)
  then ret
  else if (id mod 2 =? 1)%nat
          && ltF (nth id (pallet_minmax props) PrimFloat.zero)
                 (nth id (adjustedPos props intersectingBox) PrimFloat.zero)
  then ret
  else match ret with
       | None => Some (id, intersect)
       | Some (_, r1) =>
           if gtF intersect PrimFloat.zero && gtF r1 intersect then Some (id, intersect) else ret
       end.

Definition min_intersection (props : boxprops) (intersectingBox : SimBox)
    (PosArray newPosArray : Vec3F) : option (nat * float) :=
  reduce_i (min_intersection_step props intersectingBox PosArray newPosArray)
    (intersections props intersectingBox newPosArray) None.

Definition tempPosArray (props : boxprops) (intersectingBox : SimBox)
    (newPosArray : Vec3F) (id0 : nat) : Vec3F :=
  vmapF_i (fun dim id =>
             if (id =? id0 / 2)%nat
             then nth id0 (adjustedPos props intersectingBox) PrimFloat.zero
             else dim)
          newPosArray.

Inductive Activation : Type :=
| Return (pos : Vec3F)
| Recurse (boxes : list SimBox) (newPosArray : Vec3F).

Definition getNewPos_body (props : boxprops) (matrix : Vec3F)
    (boxes : list SimBox) (PosArray : Vec3F) (newPosArray0 : option Vec3F) : Activation :=
  let newPosArray := match newPosArray0 with Some v => v | None => PosArray end in
  match intersecting props boxes newPosArray with
  | None => Return newPosArray
  | Some (intersectingBox, index) =>
      match min_intersection props intersectingBox PosArray newPosArray with
      | None =>
          Recurse (filter_i (fun _ i => negb (i =? index)%nat) boxes) matrix
      | Some (id0, _) =>
          Recurse (filter_i (fun _ i => negb (i =? index)%nat) boxes)
                  (tempPosArray props intersectingBox newPosArray id0)
      end
  end.

Fixpoint getNewPos_fuel (fuel : nat) (props : boxprops) (matrix : Vec3F)
    (boxes : list SimBox) (PosArray : Vec3F) (newPosArray : option Vec3F) : option Vec3F :=
  match fuel with
  | O => None
  | S fuel' =>
      match getNewPos_body props matrix boxes PosArray newPosArray with
      | Return pos => Some pos
      | Recurse boxes' newPosArray' =>
          getNewPos_fuel fuel' props matrix boxes' PosArray (Some newPosArray')
      end
  end.

Definition getNewPos (props : boxprops) (matrix : Vec3F)
    (boxes : list SimBox) (PosArray : Vec3F) (newPosArray : option Vec3F) : option Vec3F :=
  getNewPos_fuel (S (List.length boxes)) props matrix boxes PosArray newPosArray.

(** Whether a position is within the clamp bounds, by the code's own
    comparisons. *)
Definition in_bounds (props : boxprops) (pos : Vec3F) : bool :=
  PrimFloat.leb (vgetF (pallet_min props) 0) (vgetF pos 0)
  && PrimFloat.leb (vgetF pos 0) (vgetF (pallet_max props) 0)
  && PrimFloat.leb (vgetF (pallet_min props) 1) (vgetF pos 1)
  && PrimFloat.leb (vgetF pos 1) (vgetF (pallet_max props) 1)
  && PrimFloat.leb (vgetF (pallet_min props) 2) (vgetF pos 2)
  && PrimFloat.leb (vgetF pos 2) (vgetF (pallet_max props) 2).

(** Whether the code's test reports no overlap with any other item. *)
Definition collision_free (props : boxprops) (boxes : list SimBox) (pos : Vec3F) : bool :=
  forallb (fun box =>
             Z.eqb (batchdetailid box) (batchdetailid (data props))
             || negb (intersects props pos box))
          boxes.

End Binary64.

(** Scenario "against the neighbour": a 10 x 10 x 10 container; box 1
    (1 x 2 x 3) in the corner at x = 0, box 2 (2 x 4 x 2) from x = 3 on, both
    from y = 3 on; box 3 (3 x 2 x 2, the selected one) in the corner at x = 0,
    y = 0, so that moved along y it slides between the wall and box 2, which
    it touches. *)
Definition corner1 : SimProduct := sampleBox 1 1 2 3 (0, 3, 0) R0.
Definition neighbour2 : SimProduct := sampleBox 2 2 4 2 (3, 3, 0) R0.
Definition slider3 : SimProduct := sampleBox 3 3 2 2 (0, 0, 0) R0.

Definition againstNeighbour : SimBatch :=
  sampleBatch 10 [DOrder (mkSimOrder 1 "o" "1" [corner1; neighbour2; slider3])].

(** The drag target of the scenario, in render units: box 3 moved three
    units along y (the scene's z), level with boxes 1 and 2. *)
Definition againstNeighbourTarget : Vec3 := (-7 # 20, 1 # 10, -1 # 10).



(** * Theorems *)

(** ** Spatial model *)

Lemma Qplus_0_r_eq (q : Q) : q + 0 = q.
Proof.
  destruct q as [n d]. unfold Qplus. simpl.
  rewrite Z.mul_1_r, Z.add_0_r, Pos.mul_1_r. reflexivity.
Qed.

(** C5. [getRotDim] is the specification's table: with L, W the nominal
    length and width and H the nominal height (load height added for a
    sub-pallet, zero for a box), codes 0..5 give (L,H,W), (W,H,L), (H,L,W),
    (W,L,H), (L,W,H), (H,W,L); the result is a permutation of the input
    triple, unsigned; a 30 x 20 x 10 box gives (30,10,20) at code 0 and
    (20,10,30) at code 1. *)
Theorem getRotDim_table :
  (forall item : SimBox,
      rotatedDimensions_spec (rot_code (rotation item))
        (length_of item) (nominalHeight item) (width_of item)
      = Some (getRotDim item)
      /\ Permutation (vlist (getRotDim item))
                     [length_of item; width_of item; nominalHeight item])
  /\ (forall p : SimProduct, nominalHeight (BProduct p) = p_height p)
  /\ (forall s : SimPallet, nominalHeight (BPallet s) = s_height s + s_loadheight s)
  /\ (forall (id : Z) (pos : Vec3),
         getRotDim (BProduct (sampleBox id 30 20 10 pos R0)) = (30, 10, 20)
         /\ getRotDim (BProduct (sampleBox id 30 20 10 pos R1)) = (20, 10, 30)).
Proof.
  split; [| split; [| split]].
  - intros item. split.
    + destruct item as [s | p]; unfold getRotDim, nominalHeight; simpl;
        match goal with |- context [match ?r with _ => _ end] => destruct r end;
        reflexivity.
    + assert (Hh : getRotDim item =
                   match rotation item with
                   | R0 => (length_of item, nominalHeight item, width_of item)
                   | R1 => (width_of item, nominalHeight item, length_of item)
                   | R2 => (nominalHeight item, length_of item, width_of item)
                   | R3 => (width_of item, length_of item, nominalHeight item)
                   | R4 => (length_of item, width_of item, nominalHeight item)
                   | R5 => (nominalHeight item, width_of item, length_of item)
                   end).
      { destruct item; reflexivity. }
      rewrite Hh. destruct (rotation item); simpl.
      * apply perm_skip. apply perm_swap.
      * eapply perm_trans; [apply perm_swap |]. eapply perm_trans; [apply perm_skip, perm_swap |].
        eapply perm_trans; [apply perm_swap |]. apply perm_skip. apply perm_swap.
      * eapply perm_trans; [apply perm_swap |]. apply perm_skip. apply perm_swap.
      * eapply perm_trans; [apply perm_swap |]. apply Permutation_refl.
      * apply Permutation_refl.
      * eapply perm_trans; [apply perm_skip, perm_swap |].
        eapply perm_trans; [apply perm_swap |]. apply perm_skip. apply perm_swap.
  - intros p. unfold nominalHeight. apply Qplus_0_r_eq.
  - reflexivity.
  - intros id pos. split; reflexivity.
Qed.

(** C7, in exact arithmetic. For a positive render scale the two scale
    conversions undo each other, and [readjustPos] undoes [adjustPos] (and
    conversely), whatever the position, the size and the container
    dimensions.  On doubles the same round trips hold up to rounding only,
    as the evaluation that follows shows. *)
Theorem scale_and_position_inverse (props : boxprops) (pos size : Vec3) :
  0 < renderScale props ->
  veq (readjustScale props (adjustScale props pos)) pos
  /\ veq (adjustScale props (readjustScale props pos)) pos
  /\ veq (readjustPos props (adjustPos props pos size) size) pos
  /\ veq (adjustPos props (readjustPos props pos size) size) pos.
Proof.
  intros Hs.
  assert (Hne : ~ renderScale props == 0) by lra.
  destruct pos as [[a b] c]. destruct size as [[sa sb] sc].
  destruct (contSize props) as [[ca cb] cc] eqn:Hc.
  unfold readjustScale, adjustScale, readjustPos, adjustPos, veq, vmap, vget.
  rewrite Hc.
  repeat split; try (field; assumption); try ring.
Qed.

Lemma scale_and_position_inverse_witness :
  let props := mkboxprops true false true [] (1000, 1000, 1000)
                 (BProduct (sampleBox 1 30 20 10 (0, 0, 0) R0)) 1000 in
  veq (readjustScale props (adjustScale props (3, 4, 5))) (3, 4, 5)
  /\ veq (adjustScale props (readjustScale props (3, 4, 5))) (3, 4, 5)
  /\ veq (readjustPos props (adjustPos props (3, 4, 5) (30, 10, 20)) (30, 10, 20)) (3, 4, 5)
  /\ veq (adjustPos props (readjustPos props (3, 4, 5) (30, 10, 20)) (30, 10, 20)) (3, 4, 5).
Proof.
  intros props. apply (scale_and_position_inverse props (3, 4, 5) (30, 10, 20)).
  reflexivity.
Defined.

(** C7 as stated fails on doubles. The centre conversion of the coordinate
    0.1 for a size of 0.4, undone, gives 0.10000000000000003 and not 0.1; and
    with scale 49, dividing 1 by the scale and multiplying back gives
    0.99999999999999989, equal to 1 up to rounding only. *)
Lemma binary64_round_trips_inexact :
  let p49 := mkboxprops true false true [] (49, 49, 49)
               (BProduct (sampleBox 1 1 1 1 (0, 0, 0) R0)) 49 in
  let one := Binary64.V2F (1, 1, 1) in
  let pos := Binary64.V2F (1 # 10, 1 # 10, 1 # 10) in
  let size := Binary64.V2F (2 # 5, 2 # 5, 2 # 5) in
  Binary64.neF (Binary64.vgetF (Binary64.readjustScale p49 (Binary64.adjustScale p49 one)) 0)
               (Binary64.vgetF one 0) = true
  /\ Binary64.ltF (Binary64.vgetF (Binary64.readjustScale p49 (Binary64.adjustScale p49 one)) 0)
                  (Binary64.vgetF one 0) = true
  /\ Binary64.neF
       (Binary64.vgetF (Binary64.readjustPos p49 (Binary64.adjustPos p49 pos size) size) 1)
       (Binary64.vgetF pos 1) = true
  /\ Binary64.gtF
       (Binary64.vgetF (Binary64.readjustPos p49 (Binary64.adjustPos p49 pos size) size) 1)
       (Binary64.vgetF pos 1) = true.
Proof.
  intros p49 one pos size. repeat split; vm_compute; reflexivity.
Qed.

Lemma position_box_with_position (item : SimBox) (v : Vec3) :
  position (box_with_position item v) = v.
Proof. destruct item; reflexivity. Qed.

(** Releasing the gizmo where the item already is stores the position the
    item already has. *)
Lemma onDragEnd_unmoved (props : boxprops) :
  0 < renderScale props ->
  veq (position (onDragEnd props (boxPos props))) (position (data props)).
Proof.
  intros Hs. assert (Hne : ~ renderScale props == 0) by lra.
  unfold onDragEnd. rewrite position_box_with_position.
  unfold boxPos, readjustScale, adjustScale, readjustPos, adjustPos, swapYZ, veq, vmap, vget.
  destruct (position (data props)) as [[x y] z].
  destruct (getRotDim (data props)) as [[dx dy] dz].
  destruct (contSize props) as [[ca cb] cc].
  repeat split; field; assumption.
Qed.

(** ** Patching the detail tree *)

Section MapReplace.
Context {A : Type}.
Variable f : A -> A.

Lemma map_fixed (l : list A) :
  (forall y, In y l -> f y = y) -> map f l = l.
Proof.
  induction l as [| x l IH]; intros H; simpl.
  - reflexivity.
  - rewrite (H x (or_introl eq_refl)), IH; [reflexivity |].
    intros y Hy. apply H. right. exact Hy.
Qed.

Lemma map_replace_one (pre post : list A) (x : A) :
  (forall y, In y (pre ++ post) -> f y = y) ->
  map f (pre ++ x :: post) = pre ++ f x :: post.
Proof.
  intros H. rewrite map_app. simpl. f_equal.
  - apply map_fixed. intros y Hy. apply H, in_or_app. left. exact Hy.
  - f_equal. apply map_fixed. intros y Hy. apply H, in_or_app. right. exact Hy.
Qed.
End MapReplace.

Lemma order_with_products_same (o : SimOrder) : order_with_products o (products o) = o.
Proof. destruct o. reflexivity. Qed.

Lemma batch_with_details_same (b : SimBatch) : batch_with_details b (details b) = b.
Proof. destruct b. reflexivity. Qed.

Lemma in_tree_nodes_pallet (b : SimBatch) (s : SimPallet) :
  In (DPallet s) (details b) -> In (BPallet s) (tree_nodes b).
Proof.
  intros H. unfold tree_nodes. apply in_flat_map. exists (DPallet s).
  split; [exact H | left; reflexivity].
Qed.

Lemma in_tree_nodes_product (b : SimBatch) (o : SimOrder) (p : SimProduct) :
  In (DOrder o) (details b) -> In p (products o) -> In (BProduct p) (tree_nodes b).
Proof.
  intros H Hp. unfold tree_nodes. apply in_flat_map. exists (DOrder o).
  split; [exact H |]. simpl. unfold order_nodes. apply in_map. exact Hp.
Qed.

(** C9. When the item's id is the id of no node of the detail tree,
    [setItem] yields a batch equal to the one it was given; without a batch
    it does nothing. *)
Theorem setItem_unknown_id (b : SimBatch) (item : SimBox) :
  ~ In (batchdetailid item) (map batchdetailid (tree_nodes b)) ->
  Scene.setItem (Some b) item = Some b
  /\ Scene.setItem None item = None.
Proof.
  intros Hid. split; [| reflexivity].
  unfold Scene.setItem. f_equal.
  rewrite map_fixed; [apply batch_with_details_same |].
  intros d Hd.
  destruct item as [it | it]; destruct d as [o | s]; try reflexivity.
  - destruct (Z.eqb (s_batchdetailid s) (s_batchdetailid it)) eqn:E; [| reflexivity].
    exfalso. apply Hid. apply Z.eqb_eq in E. simpl. rewrite <- E.
    apply (in_map batchdetailid _ (BPallet s)). apply in_tree_nodes_pallet. exact Hd.
  - f_equal. rewrite map_fixed; [apply order_with_products_same |].
    intros p Hp.
    destruct (Z.eqb (p_batchdetailid p) (p_batchdetailid it)) eqn:E; [| reflexivity].
    exfalso. apply Hid. apply Z.eqb_eq in E. simpl. rewrite <- E.
    apply (in_map batchdetailid _ (BProduct p)).
    apply (in_tree_nodes_product b o p Hd Hp).
Qed.

Lemma setItem_unknown_id_witness :
  let b := sampleBatch 1000 [DOrder (mkSimOrder 1 "o" "1" [sampleBox 5 30 20 10 (0, 0, 0) R0])] in
  let item := BProduct (sampleBox 9 30 20 10 (1, 1, 1) R0) in
  Scene.setItem (Some b) item = Some b /\ Scene.setItem None item = None.
Proof.
  intros b item. apply (setItem_unknown_id b item).
  simpl. intros [H | []]. discriminate H.
Defined.

(** The replacement functions of [setItem], one per variant of the item. *)
Lemma setItem_pallet_fixes (it : SimPallet) (d : Detail) :
  (forall s, d = DPallet s -> s_batchdetailid s <> s_batchdetailid it) ->
  match d with
  | DOrder _ => d
  | DPallet s =>
      if negb (Z.eqb (s_batchdetailid s) (s_batchdetailid it)) then d else DPallet it
  end = d.
Proof.
  intros H. destruct d as [o | s]; [reflexivity |].
  destruct (Z.eqb (s_batchdetailid s) (s_batchdetailid it)) eqn:E; [| reflexivity].
  apply Z.eqb_eq in E. exfalso. exact (H s eq_refl E).
Qed.

(** C2, as the code has it. A sub-pallet detail, or a box of a bare order,
    whose id is carried by no other node of the same kind, is replaced by
    a replacement item of that kind with that id, and nothing else changes;
    a box inside the orders of a sub-pallet is never replaced: sub-pallet
    details come back as they were when the item is a box. *)
Theorem setItem_replaces_one (b : SimBatch) :
  (forall (pre post : list Detail) (s it : SimPallet),
      details b = pre ++ DPallet s :: post ->
      s_batchdetailid it = s_batchdetailid s ->
      (forall s', In (DPallet s') (pre ++ post) ->
                  s_batchdetailid s' <> s_batchdetailid s) ->
      Scene.setItem (Some b) (BPallet it)
      = Some (batch_with_details b (pre ++ DPallet it :: post)))
  /\ (forall (pre post : list Detail) (o : SimOrder) (ppre ppost : list SimProduct)
             (p it : SimProduct),
         details b = pre ++ DOrder o :: post ->
         products o = ppre ++ p :: ppost ->
         p_batchdetailid it = p_batchdetailid p ->
         (forall p', In p' (ppre ++ ppost) -> p_batchdetailid p' <> p_batchdetailid p) ->
         (forall o' p', In (DOrder o') (pre ++ post) -> In p' (products o') ->
                        p_batchdetailid p' <> p_batchdetailid p) ->
         Scene.setItem (Some b) (BProduct it)
         = Some (batch_with_details b
                   (pre ++ DOrder (order_with_products o (ppre ++ it :: ppost)) :: post)))
  /\ (forall (it : SimProduct) (b' : SimBatch) (i : nat) (s : SimPallet),
         Scene.setItem (Some b) (BProduct it) = Some b' ->
         nth_error (details b) i = Some (DPallet s) ->
         nth_error (details b') i = Some (DPallet s)).
Proof.
  split; [| split].
  - intros pre post s it Hd Hid Huniq.
    unfold Scene.setItem. rewrite Hd. f_equal. f_equal.
    rewrite map_replace_one.
    + simpl. rewrite Hid, Z.eqb_refl. reflexivity.
    + intros d Hin. apply setItem_pallet_fixes.
      intros s' ->. rewrite Hid. apply Huniq. exact Hin.
  - intros pre post o ppre ppost p it Hd Hp Hid Hin Hout.
    unfold Scene.setItem. rewrite Hd. f_equal. f_equal.
    rewrite map_replace_one.
    + f_equal. f_equal. f_equal. rewrite Hp.
      rewrite map_replace_one.
      * rewrite Hid, Z.eqb_refl. reflexivity.
      * intros p' Hp'.
        destruct (Z.eqb (p_batchdetailid p') (p_batchdetailid it)) eqn:E; [| reflexivity].
        apply Z.eqb_eq in E. rewrite Hid in E. exfalso. exact (Hin p' Hp' E).
    + intros d Hdin. destruct d as [o' | s']; [| reflexivity].
      f_equal. rewrite map_fixed; [apply order_with_products_same |].
      intros p' Hp'.
      destruct (Z.eqb (p_batchdetailid p') (p_batchdetailid it)) eqn:E; [| reflexivity].
      apply Z.eqb_eq in E. rewrite Hid in E. exfalso. exact (Hout o' p' Hdin Hp' E).
  - intros it b' i s Hset Hnth.
    unfold Scene.setItem in Hset. injection Hset as <-. simpl.
    rewrite nth_error_map, Hnth. reflexivity.
Qed.

Lemma setItem_replaces_one_witness :
  let nested := sampleBox 7 30 20 10 (0, 0, 0) R0 in
  let pal := samplePallet 1 100 100 15 50 (0, 0, 0) R0 [mkSimOrder 2 "in" "2" [nested]] in
  let pal' := samplePallet 1 100 100 15 50 (10, 0, 0) R0 [mkSimOrder 2 "in" "2" [nested]] in
  let p5 := sampleBox 5 30 20 10 (0, 0, 0) R0 in
  let p6 := sampleBox 6 30 20 10 (30, 0, 0) R0 in
  let p6' := sampleBox 6 30 20 10 (60, 0, 0) R0 in
  let ord := mkSimOrder 3 "bare" "3" [p5; p6] in
  let b := sampleBatch 1000 [DPallet pal; DOrder ord] in
  Scene.setItem (Some b) (BPallet pal')
  = Some (sampleBatch 1000 [DPallet pal'; DOrder ord])
  /\ Scene.setItem (Some b) (BProduct p6')
     = Some (sampleBatch 1000 [DPallet pal; DOrder (mkSimOrder 3 "bare" "3" [p5; p6'])])
  /\ nth_error (details (sampleBatch 1000 [DPallet pal; DOrder (mkSimOrder 3 "bare" "3" [p5; p6'])])) 0
     = Some (DPallet pal).
Proof.
  intros nested pal pal' p5 p6 p6' ord b.
  destruct (setItem_replaces_one b) as [Hpal [Hbox Hnest]].
  split; [| split].
  - apply (Hpal [] [DOrder ord] pal pal'); [reflexivity | reflexivity |].
    simpl. intros s' [H | []]. discriminate H.
  - apply (Hbox [DPallet pal] [] ord [p5] [] p6 p6'); [reflexivity | reflexivity | reflexivity | |].
    + simpl. intros p' [<- | []]. simpl. discriminate.
    + simpl. intros o' p' [H | []]. discriminate H.
  - apply (Hnest p6' _ 0%nat pal).
    + apply (Hbox [DPallet pal] [] ord [p5] [] p6 p6'); [reflexivity | reflexivity | reflexivity | |].
      * simpl. intros p' [<- | []]. simpl. discriminate.
      * simpl. intros o' p' [H | []]. discriminate H.
    + reflexivity.
Defined.

(** C2 as stated fails for a box inside the orders of a sub-pallet: box 7
    occurs in the tree, the replacement carries id 7 and another position,
    and [setItem] returns the batch it was given, the replacement nowhere in
    it. *)
Lemma setItem_nested_box_not_replaced :
  let old := sampleBox 7 30 20 10 (0, 0, 0) R0 in
  let new := sampleBox 7 30 20 10 (5, 5, 0) R0 in
  let b := sampleBatch 1000
             [DPallet (samplePallet 1 100 100 15 50 (0, 0, 0) R0 [mkSimOrder 2 "in" "2" [old]])] in
  In (BProduct old) (tree_nodes b)
  /\ batchdetailid (BProduct new) = batchdetailid (BProduct old)
  /\ Scene.setItem (Some b) (BProduct new) = Some b
  /\ ~ In (BProduct new) (tree_nodes b).
Proof.
  intros old new b. split; [| split; [| split]].
  - simpl. right. left. reflexivity.
  - reflexivity.
  - reflexivity.
  - simpl. intros [H | [H | []]]; discriminate H.
Qed.

(** ** Rotation commands *)

(** C8. The horizontal table pairs 0-1, 2-3, 4-5 and the vertical table
    pairs 0-4, 1-3, 2-5, each its own inverse; the vertical button is
    rendered for a selected box only, never for a sub-pallet; a click
    replaces the selected node, found by its id among the nodes of its kind,
    by the same node with the rotation mapped through the table, and nothing
    else in the batch changes. *)
Theorem rotation_commands :
  (map (fun r => rot_code (SimCanvas.rotH r)) allRotations = [1; 0; 3; 2; 5; 4]%Z
   /\ map (fun r => rot_code (SimCanvas.rotV r)) allRotations = [4; 3; 5; 1; 0; 2]%Z
   /\ (forall r, SimCanvas.rotH (SimCanvas.rotH r) = r)
   /\ (forall r, SimCanvas.rotV (SimCanvas.rotV r) = r))
  /\ (forall data sel edit,
         In SimCanvas.RotateVertical (SimCanvas.rotationButtons data (Some sel) edit)
         <-> (data <> None /\ edit = true /\ mastertype sel = product))
  /\ (forall data sel edit,
         In SimCanvas.RotateHorizontal (SimCanvas.rotationButtons data (Some sel) edit)
         <-> (data <> None /\ edit = true))
  /\ (forall d pre post s sel,
         details d = pre ++ DPallet s :: post ->
         mastertype sel = sim_batch ->
         batchdetailid sel = s_batchdetailid s ->
         (forall s', In (DPallet s') (pre ++ post) ->
                     s_batchdetailid s' <> s_batchdetailid s) ->
         SimCanvas.onClick SimCanvas.RotateHorizontal d (Some sel)
         = batch_with_details d
             (pre ++ DPallet (pallet_with_rotation s (SimCanvas.rotH (s_rotation s))) :: post))
  /\ (forall btn d pre post o ppre ppost p sel,
         In btn (SimCanvas.rotationButtons (Some d) (Some sel) true) ->
         details d = pre ++ DOrder o :: post ->
         products o = ppre ++ p :: ppost ->
         mastertype sel = product ->
         batchdetailid sel = p_batchdetailid p ->
         (forall p', In p' (ppre ++ ppost) -> p_batchdetailid p' <> p_batchdetailid p) ->
         (forall o' p', In (DOrder o') (pre ++ post) -> In p' (products o') ->
                        p_batchdetailid p' <> p_batchdetailid p) ->
         SimCanvas.onClick btn d (Some sel)
         = batch_with_details d
             (pre ++ DOrder (order_with_products o
                               (ppre ++ product_with_rotation p (rotationTable btn (p_rotation p))
                                     :: ppost)) :: post))
  /\ (forall p r, p_rotation (product_with_rotation p r) = r
                  /\ product_with_rotation (product_with_rotation p r) (p_rotation p) = p)
  /\ (forall s r, s_rotation (pallet_with_rotation s r) = r
                  /\ pallet_with_rotation (pallet_with_rotation s r) (s_rotation s) = s).
Proof.
  split; [| split; [| split; [| split; [| split; [| split]]]]].
  - repeat split; try reflexivity; intros []; reflexivity.
  - intros data sel edit. unfold SimCanvas.rotationButtons.
    destruct data as [d |]; destruct edit; destruct sel as [s | p]; simpl;
      split; intros H;
      try (destruct H as [H | H]; try discriminate H; try contradiction);
      try (destruct H as (H1 & H2 & H3); try discriminate; try (exfalso; apply H1; reflexivity));
      try (repeat split; congruence);
      try contradiction.
    right. left. reflexivity.
  - intros data sel edit. unfold SimCanvas.rotationButtons.
    destruct data as [d |]; destruct edit; simpl; split; intros H;
      try contradiction;
      try (destruct H as (H1 & H2); try discriminate; try (exfalso; apply H1; reflexivity));
      try (split; congruence).
    left. reflexivity.
  - intros d pre post s sel Hd Hm Hid Huniq.
    unfold SimCanvas.onClick, SimCanvas.onClickHorizontal. rewrite Hm, Hd. f_equal.
    rewrite map_replace_one.
    + rewrite Hid, Z.eqb_refl. reflexivity.
    + intros [o' | s'] Hin; [reflexivity |].
      destruct (Z.eqb (s_batchdetailid s') (batchdetailid sel)) eqn:E; [| reflexivity].
      apply Z.eqb_eq in E. rewrite Hid in E. exfalso. exact (Huniq s' Hin E).
  - intros btn d pre post o ppre ppost p sel _ Hd Hp Hm Hid Hin Hout.
    assert (Hfix : forall o', In (DOrder o') (pre ++ post) ->
              map (fun p0 => if negb (Z.eqb (p_batchdetailid p0) (batchdetailid sel)) then p0
                             else product_with_rotation p0 (rotationTable btn (p_rotation p0)))
                  (products o') = products o').
    { intros o' Ho'. apply map_fixed. intros p' Hp'.
      destruct (Z.eqb (p_batchdetailid p') (batchdetailid sel)) eqn:E; [| reflexivity].
      apply Z.eqb_eq in E. rewrite Hid in E. exfalso. exact (Hout o' p' Ho' Hp' E). }
    assert (Hsel : map (fun p0 => if negb (Z.eqb (p_batchdetailid p0) (batchdetailid sel)) then p0
                             else product_with_rotation p0 (rotationTable btn (p_rotation p0)))
                       (products o)
                   = ppre ++ product_with_rotation p (rotationTable btn (p_rotation p)) :: ppost).
    { rewrite Hp, map_replace_one.
      - rewrite Hid, Z.eqb_refl. reflexivity.
      - intros p' Hp'.
        destruct (Z.eqb (p_batchdetailid p') (batchdetailid sel)) eqn:E; [| reflexivity].
        apply Z.eqb_eq in E. rewrite Hid in E. exfalso. exact (Hin p' Hp' E). }
    destruct btn; unfold SimCanvas.onClick, SimCanvas.onClickHorizontal,
      SimCanvas.onClickVertical; try rewrite Hm; rewrite Hd; f_equal;
      (rewrite map_replace_one;
       [ simpl rotationTable in Hsel; rewrite Hsel; reflexivity
       | intros [o' | s'] Ho'; [| reflexivity];
         simpl rotationTable in Hfix; rewrite (Hfix o' Ho');
         rewrite order_with_products_same; reflexivity ]).
  - intros p r. split; [reflexivity | destruct p; reflexivity].
  - intros s r. split; [reflexivity | destruct s; reflexivity].
Qed.

Lemma rotation_commands_witness :
  let p5 := sampleBox 5 30 20 10 (0, 0, 0) R0 in
  let p6 := sampleBox 6 30 20 10 (30, 0, 0) R2 in
  let pal := samplePallet 1 100 100 15 50 (0, 0, 0) R0 [] in
  let ord := mkSimOrder 3 "bare" "3" [p5; p6] in
  let d := sampleBatch 1000 [DPallet pal; DOrder ord] in
  SimCanvas.onClick SimCanvas.RotateHorizontal d (Some (BPallet pal))
  = sampleBatch 1000 [DPallet (samplePallet 1 100 100 15 50 (0, 0, 0) R1 []); DOrder ord]
  /\ SimCanvas.onClick SimCanvas.RotateVertical d (Some (BProduct p6))
     = sampleBatch 1000 [DPallet pal;
                    DOrder (mkSimOrder 3 "bare" "3"
                              [p5; sampleBox 6 30 20 10 (30, 0, 0) R5])].
Proof.
  intros p5 p6 pal ord d.
  destruct rotation_commands as (_ & _ & _ & Hpal & Hbox & _).
  split.
  - apply (Hpal d [] [DOrder ord] pal (BPallet pal)); [reflexivity | reflexivity | reflexivity |].
    simpl. intros s' [H | []]. discriminate H.
  - apply (Hbox SimCanvas.RotateVertical d [DPallet pal] [] ord [p5] [] p6 (BProduct p6)).
    + simpl. right. left. reflexivity.
    + reflexivity.
    + reflexivity.
    + reflexivity.
    + reflexivity.
    + simpl. intros p' [<- | []]. simpl. discriminate.
    + simpl. intros o' p' [H | []]. discriminate H.
Defined.

(** ** Array callbacks with an index *)

Lemma indexed_from_snoc {A : Type} (l : list A) (a : A) (k : nat) :
  combine (seq k (length (l ++ [a]))) (l ++ [a])
  = combine (seq k (length l)) l ++ [((k + length l)%nat, a)].
Proof.
  revert k. induction l as [| x l IH]; intros k; simpl.
  - rewrite Nat.add_0_r. reflexivity.
  - rewrite IH. rewrite Nat.add_succ_r. reflexivity.
Qed.

Lemma reduce_i_snoc {A B : Type} (f : B -> A -> nat -> B) (l : list A) (a : A) (init : B) :
  reduce_i f (l ++ [a]) init = f (reduce_i f l init) a (length l).
Proof.
  unfold reduce_i, indexed. rewrite indexed_from_snoc, fold_left_app. reflexivity.
Qed.

(** An invariant of the accumulator survives the whole [reduce]. *)
Lemma reduce_i_invariant {A B : Type} (P : B -> Prop) (f : B -> A -> nat -> B)
    (l : list A) (init : B) :
  P init ->
  (forall ret a i, P ret -> nth_error l i = Some a -> P (f ret a i)) ->
  P (reduce_i f l init).
Proof.
  induction l as [| a l IH] using rev_ind; intros Hinit Hstep.
  - exact Hinit.
  - rewrite reduce_i_snoc. apply Hstep.
    + apply IH; [exact Hinit |]. intros ret b i Hret Hnth. apply Hstep; [exact Hret |].
      rewrite nth_error_app1; [exact Hnth |]. apply nth_error_Some. congruence.
    + rewrite nth_error_app2, Nat.sub_diag; [reflexivity | lia].
Qed.

Lemma filter_keeps_later {A : Type} (l : list A) (k j : nat) :
  (j < k)%nat ->
  map snd (filter (fun ia : nat * A => negb (fst ia =? j)%nat) (combine (seq k (length l)) l)) = l.
Proof.
  revert k. induction l as [| x l IH]; intros k Hk; simpl.
  - reflexivity.
  - destruct (Nat.eqb_spec k j) as [E | E]; [lia |]. simpl.
    rewrite IH; [reflexivity | lia].
Qed.

Lemma filter_i_from {A : Type} (l : list A) (k index : nat) :
  map snd (filter (fun ia : nat * A => negb (fst ia =? k + index)%nat)
                  (combine (seq k (length l)) l))
  = remove_nth index l.
Proof.
  revert k index. induction l as [| x l IH]; intros k index; simpl.
  - reflexivity.
  - destruct index as [| i].
    + rewrite Nat.add_0_r, Nat.eqb_refl. simpl. apply filter_keeps_later. lia.
    + destruct (Nat.eqb_spec k (k + S i)) as [E | E]; [lia |]. simpl.
      f_equal. rewrite <- (IH (S k) i). rewrite Nat.add_succ_r. reflexivity.
Qed.

(** The source's filter drops exactly the element at [index]. *)
Lemma filter_i_remove_nth {A : Type} (l : list A) (index : nat) :
  filter_i (fun _ i => negb (i =? index)%nat) l = remove_nth index l.
Proof.
  unfold filter_i, indexed. apply (filter_i_from l 0 index).
Qed.

Lemma remove_nth_length {A : Type} (l : list A) (index : nat) (a : A) :
  nth_error l index = Some a -> length l = S (length (remove_nth index l)).
Proof.
  revert index. induction l as [| x l IH]; intros index H.
  - destruct index; discriminate H.
  - destruct index as [| i]; simpl.
    + reflexivity.
    + f_equal. apply IH. exact H.
Qed.

Lemma remove_nth_incl {A : Type} (l : list A) (index : nat) (x : A) :
  In x (remove_nth index l) -> In x l.
Proof.
  revert index. induction l as [| y l IH]; intros index H; simpl in *.
  - exact H.
  - destruct index as [| i].
    + right. exact H.
    + destruct H as [H | H]; [left; exact H | right; exact (IH i H)].
Qed.

Lemma remove_nth_split {A : Type} (l : list A) (index : nat) (a x : A) :
  nth_error l index = Some a -> In x l -> x = a \/ In x (remove_nth index l).
Proof.
  revert index. induction l as [| y l IH]; intros index Hnth Hin.
  - contradiction.
  - destruct index as [| i]; simpl in *.
    + injection Hnth as <-. destruct Hin as [-> | Hin]; [left; reflexivity | right; exact Hin].
    + destruct Hin as [-> | Hin].
      * right. left. reflexivity.
      * destruct (IH i Hnth Hin) as [-> | H]; [left; reflexivity | right; right; exact H].
Qed.

Lemma remove_nth_count (props : boxprops) (l : list SimBox) (index : nat) (a : SimBox) :
  nth_error l index = Some a -> other props a ->
  count_others props l = S (count_others props (remove_nth index l)).
Proof.
  unfold count_others, other.
  revert index. induction l as [| y l IH]; intros index Hnth Ho.
  - destruct index; discriminate Hnth.
  - destruct index as [| i]; simpl in *.
    + injection Hnth as <-.
      destruct (Z.eqb_spec (batchdetailid y) (batchdetailid (data props))) as [E | E];
        [contradiction | reflexivity].
    + destruct (Z.eqb (batchdetailid y) (batchdetailid (data props))); simpl;
        rewrite (IH i Hnth Ho); reflexivity.
Qed.

(** ** The overlap test *)

Lemma Qgeb_false (a b : Q) : Qgeb a b = false <-> a < b.
Proof.
  unfold Qgeb. split; intros H.
  - apply Qnot_le_lt. intros Hle. apply Qle_bool_iff in Hle. congruence.
  - destruct (Qle_bool b a) eqn:E; [| reflexivity].
    apply Qle_bool_iff in E. lra.
Qed.

Lemma Qneqb_false (a b : Q) : Qneqb a b = false <-> a == b.
Proof.
  unfold Qneqb. rewrite negb_false_iff. apply Qeq_bool_iff.
Qed.

Lemma sep_axis_not_overlaps (props : boxprops) (pos : Vec3) (box : SimBox) (k : nat) :
  (k < 3)%nat -> sep_axis props pos box k -> ~ overlaps_item props pos box.
Proof.
  intros Hk Hsep Hov. destruct (Hov k Hk) as [H1 H2].
  destruct Hsep as [H | H]; lra.
Qed.

Lemma intersects_true (props : boxprops) (pos : Vec3) (box : SimBox) :
  intersects props pos box = true <-> overlaps_item props pos box.
Proof.
  unfold intersects, overlaps_item, overlap3.
  rewrite negb_true_iff, !orb_false_iff, !Qgeb_false.
  split.
  - intros [[[H0 H0'] [H1 H1']] [H2 H2']] axis Hax.
    destruct axis as [| [| [| axis]]]; [split; assumption .. | lia].
  - intros H.
    pose proof (H 0%nat ltac:(lia)) as [? ?].
    pose proof (H 1%nat ltac:(lia)) as [? ?].
    pose proof (H 2%nat ltac:(lia)) as [? ?].
    repeat split; assumption.
Qed.

Lemma intersects_false (props : boxprops) (pos : Vec3) (box : SimBox) :
  intersects props pos box = false <-> ~ overlaps_item props pos box.
Proof.
  rewrite <- intersects_true. destruct (intersects props pos box); split; congruence.
Qed.

Lemma other_eqb (props : boxprops) (box : SimBox) :
  negb (Z.eqb (batchdetailid box) (batchdetailid (data props))) = true <-> other props box.
Proof.
  unfold other. rewrite negb_true_iff. apply Z.eqb_neq.
Qed.

(** ** The first reduce: which obstacle is picked *)

Lemma intersecting_snoc (props : boxprops) (boxes : list SimBox) (box : SimBox) (pos : Vec3) :
  intersecting props (boxes ++ [box]) pos
  = intersecting_step props pos (intersecting props boxes pos) box (length boxes).
Proof. unfold intersecting. apply reduce_i_snoc. Qed.

Lemma intersecting_spec (props : boxprops) (boxes : list SimBox) (pos : Vec3) :
  match intersecting props boxes pos with
  | Some (b, i) =>
      nth_error boxes i = Some b /\ other props b /\ overlaps_item props pos b
      /\ (forall j b', (i < j)%nat -> nth_error boxes j = Some b' ->
                       other props b' -> ~ overlaps_item props pos b')
  | None => collision_free props boxes pos
  end.
Proof.
  induction boxes as [| box boxes IH] using rev_ind.
  - intros b [].
  - rewrite intersecting_snoc. unfold intersecting_step.
    destruct (negb (Z.eqb (batchdetailid box) (batchdetailid (data props)))) eqn:Eo.
    + destruct (intersects props pos box) eqn:Ei.
      * split; [| split; [| split]].
        -- rewrite nth_error_app2, Nat.sub_diag; [reflexivity | lia].
        -- apply other_eqb. exact Eo.
        -- apply intersects_true. exact Ei.
        -- intros j b' Hj Hnth. exfalso.
           assert (Hlt : (j < length (boxes ++ [box]))%nat)
             by (apply nth_error_Some; congruence).
           rewrite length_app in Hlt. simpl in Hlt. lia.
      * apply intersects_false in Ei.
        destruct (intersecting props boxes pos) as [[b i] |].
        -- destruct IH as (Hnth & Hob & Hov & Hlater).
           assert (Hi : (i < length boxes)%nat) by (apply nth_error_Some; congruence).
           split; [| split; [| split]]; try assumption.
           ++ rewrite nth_error_app1; assumption.
           ++ intros j b' Hj Hnth' Ho'.
              destruct (Nat.lt_ge_cases j (length boxes)) as [Hjl | Hjl].
              ** rewrite nth_error_app1 in Hnth' by exact Hjl. exact (Hlater j b' Hj Hnth' Ho').
              ** rewrite nth_error_app2 in Hnth' by exact Hjl.
                 destruct (j - length boxes)%nat as [| n] eqn:En; simpl in Hnth'.
                 --- injection Hnth' as <-. exact Ei.
                 --- destruct n; discriminate Hnth'.
        -- intros b Hin Ho. apply in_app_or in Hin. destruct Hin as [Hin | [<- | []]].
           ++ exact (IH b Hin Ho).
           ++ exact Ei.
    + assert (Hno : ~ other props box).
      { intros Ho. apply other_eqb in Ho. congruence. }
      destruct (intersecting props boxes pos) as [[b i] |].
      * destruct IH as (Hnth & Hob & Hov & Hlater).
        assert (Hi : (i < length boxes)%nat) by (apply nth_error_Some; congruence).
        split; [| split; [| split]]; try assumption.
        -- rewrite nth_error_app1; assumption.
        -- intros j b' Hj Hnth' Ho'.
           destruct (Nat.lt_ge_cases j (length boxes)) as [Hjl | Hjl].
           ++ rewrite nth_error_app1 in Hnth' by exact Hjl. exact (Hlater j b' Hj Hnth' Ho').
           ++ rewrite nth_error_app2 in Hnth' by exact Hjl.
              destruct (j - length boxes)%nat as [| n] eqn:En; simpl in Hnth'.
              ** injection Hnth' as <-. contradiction.
              ** destruct n; discriminate Hnth'.
      * intros b Hin Ho. apply in_app_or in Hin. destruct Hin as [Hin | [<- | []]].
        -- exact (IH b Hin Ho).
        -- contradiction.
Qed.

(** C3, as the code has it. The obstacle an activation works on is the
    LAST item of the list, in scan order, that is not the selected one and
    overlaps the working position: it sits at the returned index and no
    later item overlaps; when nothing overlaps there is no obstacle. Only
    that one obstacle is dealt with: the activation either returns, or
    calls itself on the list without that single entry. *)
Theorem intersecting_is_last_overlap (props : boxprops) (matrix : Vec3)
    (boxes : list SimBox) (PosArray : Vec3) (newPosArray : option Vec3) :
  let pos := match newPosArray with Some v => v | None => PosArray end in
  match intersecting props boxes pos with
  | Some (b, i) =>
      nth_error boxes i = Some b
      /\ other props b
      /\ overlaps_item props pos b
      /\ (forall j b', (i < j)%nat -> nth_error boxes j = Some b' ->
                       other props b' -> ~ overlaps_item props pos b')
      /\ exists pos',
           getNewPos_body props matrix boxes PosArray newPosArray
           = Recurse (remove_nth i boxes) pos'
  | None =>
      collision_free props boxes pos
      /\ getNewPos_body props matrix boxes PosArray newPosArray = Return pos
  end.
Proof.
  intros pos. pose proof (intersecting_spec props boxes pos) as Hspec.
  unfold getNewPos_body. fold pos.
  destruct (intersecting props boxes pos) as [[b i] |].
  - destruct Hspec as (H1 & H2 & H3 & H4).
    split; [exact H1 | split; [exact H2 | split; [exact H3 | split; [exact H4 |]]]].
    rewrite filter_i_remove_nth.
    destruct (min_intersection props b PosArray pos) as [[id0 v] |]; eexists; reflexivity.
  - split; [exact Hspec | reflexivity].
Qed.

(** C3 as stated fails: with boxes 1 and 2 both overlapping the target,
    box 1 first in the list, the obstacle picked is box 2 at index 1, and it
    is box 2 that leaves the list. *)
Lemma intersecting_not_first_overlap :
  let props := selectedProps twoObstacles (BProduct dragged3) in
  allItems props = [BProduct obstacle1; BProduct obstacle2; BProduct dragged3]
  /\ overlaps_item props twoObstaclesTarget (BProduct obstacle1)
  /\ overlaps_item props twoObstaclesTarget (BProduct obstacle2)
  /\ other props (BProduct obstacle1)
  /\ intersecting props (allItems props) twoObstaclesTarget = Some (BProduct obstacle2, 1%nat)
  /\ exists pos',
       getNewPos_body props (boxPos props) (allItems props) twoObstaclesTarget None
       = Recurse [BProduct obstacle1; BProduct dragged3] pos'.
Proof.
  intros props. split; [reflexivity |].
  split; [apply intersects_true; vm_compute; reflexivity |].
  split; [apply intersects_true; vm_compute; reflexivity |].
  split; [unfold other; simpl; discriminate |].
  split; [vm_compute; reflexivity |].
  eexists. vm_compute. reflexivity.
Qed.

Lemma intersecting_is_last_overlap_witness :
  let props := selectedProps twoObstacles (BProduct dragged3) in
  nth_error (allItems props) 1 = Some (BProduct obstacle2)
  /\ other props (BProduct obstacle2)
  /\ overlaps_item props twoObstaclesTarget (BProduct obstacle2)
  /\ (forall j b', (1 < j)%nat -> nth_error (allItems props) j = Some b' ->
                   other props b' -> ~ overlaps_item props twoObstaclesTarget b')
  /\ exists pos',
       getNewPos_body props (boxPos props) (allItems props) twoObstaclesTarget None
       = Recurse (remove_nth 1 (allItems props)) pos'.
Proof.
  intros props.
  pose proof (intersecting_is_last_overlap props (boxPos props) (allItems props)
                twoObstaclesTarget None) as H.
  cbv beta iota zeta in H.
  assert (E : intersecting props (allItems props) twoObstaclesTarget
              = Some (BProduct obstacle2, 1%nat)) by (vm_compute; reflexivity).
  rewrite E in H. exact H.
Defined.

(** ** Base case *)

(** On the exact reading of the overlap test, a target that overlaps no
    other item of the list comes back unchanged. On doubles the test can
    report an overlap for a box that only touches its neighbour; section
    "Rounding at touching faces" below has the case. *)
Theorem getNewPos_free_target (props : boxprops) (matrix : Vec3)
    (boxes : list SimBox) (PosArray : Vec3) :
  collision_free props boxes PosArray ->
  getNewPos props matrix boxes PosArray None = Some PosArray.
Proof.
  intros Hfree. unfold getNewPos. simpl. unfold getNewPos_body.
  pose proof (intersecting_spec props boxes PosArray) as Hspec.
  destruct (intersecting props boxes PosArray) as [[b i] |]; [| reflexivity].
  destruct Hspec as (Hnth & Ho & Hov & _).
  exfalso. apply (Hfree b); [eapply nth_error_In; exact Hnth | exact Ho | exact Hov].
Qed.

(** ** Termination *)

Lemma count_others_le_length (props : boxprops) (boxes : list SimBox) :
  (count_others props boxes <= length boxes)%nat.
Proof. unfold count_others. apply filter_length_le. Qed.

Lemma getNewPos_body_recurse (props : boxprops) (matrix : Vec3)
    (boxes : list SimBox) (PosArray : Vec3) (newPosArray : option Vec3)
    (boxes' : list SimBox) (pos' : Vec3) :
  getNewPos_body props matrix boxes PosArray newPosArray = Recurse boxes' pos' ->
  exists b i,
    intersecting props boxes (match newPosArray with Some v => v | None => PosArray end)
    = Some (b, i)
    /\ nth_error boxes i = Some b
    /\ other props b
    /\ boxes' = remove_nth i boxes.
Proof.
  intros Hbody.
  pose proof (intersecting_is_last_overlap props matrix boxes PosArray newPosArray) as Hspec.
  simpl in Hspec.
  destruct (intersecting props boxes _) as [[b i] |].
  - destruct Hspec as (Hnth & Ho & _ & _ & pos'' & Hrec).
    exists b, i. rewrite Hrec in Hbody. injection Hbody as <- _.
    split; [reflexivity | split; [exact Hnth | split; [exact Ho | reflexivity]]].
  - destruct Hspec as [_ Hret]. rewrite Hret in Hbody. discriminate Hbody.
Qed.

Lemma getNewPos_fuel_total (props : boxprops) (matrix : Vec3) (PosArray : Vec3) (fuel : nat) :
  forall boxes newPosArray,
    (count_others props boxes < fuel)%nat ->
    exists r, getNewPos_fuel fuel props matrix boxes PosArray newPosArray = Some r.
Proof.
  induction fuel as [| fuel IH]; intros boxes newPosArray Hlt; [lia |].
  simpl.
  destruct (getNewPos_body props matrix boxes PosArray newPosArray) as [pos | boxes' pos'] eqn:Hb.
  - exists pos. reflexivity.
  - destruct (getNewPos_body_recurse _ _ _ _ _ _ _ Hb) as (b & i & _ & Hnth & Ho & ->).
    apply IH. rewrite (remove_nth_count props boxes i b Hnth Ho) in Hlt. lia.
Qed.

Lemma getNewPos_fuel_mono (props : boxprops) (matrix : Vec3) (PosArray : Vec3) (fuel : nat) :
  forall fuel' boxes newPosArray r,
    getNewPos_fuel fuel props matrix boxes PosArray newPosArray = Some r ->
    (fuel <= fuel')%nat ->
    getNewPos_fuel fuel' props matrix boxes PosArray newPosArray = Some r.
Proof.
  induction fuel as [| fuel IH]; intros fuel' boxes newPosArray r H Hle; [discriminate H |].
  destruct fuel' as [| fuel']; [lia |]. simpl in *.
  destruct (getNewPos_body props matrix boxes PosArray newPosArray) as [pos | boxes' pos'].
  - exact H.
  - apply IH; [exact H | lia].
Qed.

(** C10. [getNewPos] terminates on every input. The resolver is the
    recursion over [getNewPos_body]: an activation returns what the body
    returns, or calls itself with what the body passes on. Whenever it calls
    itself, in the fallback as well as after a correction, the list it
    passes is the current one without the obstacle, hence one shorter and
    with one item other than the selected one less; so a depth of one more
    than the number of other items always yields a result, and so does the
    resolver itself. *)
Theorem getNewPos_terminates (props : boxprops) (matrix : Vec3)
    (boxes : list SimBox) (PosArray : Vec3) (newPosArray : option Vec3) :
  (getNewPos_fuel 0 props matrix boxes PosArray newPosArray = None
   /\ (forall fuel,
          getNewPos_fuel (S fuel) props matrix boxes PosArray newPosArray
          = match getNewPos_body props matrix boxes PosArray newPosArray with
            | Return pos => Some pos
            | Recurse boxes' pos' =>
                getNewPos_fuel fuel props matrix boxes' PosArray (Some pos')
            end)
   /\ getNewPos props matrix boxes PosArray newPosArray
      = getNewPos_fuel (S (length boxes)) props matrix boxes PosArray newPosArray)
  /\ (forall boxes' pos',
         getNewPos_body props matrix boxes PosArray newPosArray = Recurse boxes' pos' ->
         (forall fuel,
             getNewPos_fuel (S fuel) props matrix boxes PosArray newPosArray
             = getNewPos_fuel fuel props matrix boxes' PosArray (Some pos'))
         /\ exists b i,
             intersecting props boxes (match newPosArray with Some v => v | None => PosArray end)
             = Some (b, i)
             /\ boxes' = filter_i (fun _ j => negb (j =? i)%nat) boxes
             /\ boxes' = remove_nth i boxes
             /\ length boxes = S (length boxes')
             /\ count_others props boxes = S (count_others props boxes'))
  /\ (exists r,
         getNewPos_fuel (S (count_others props boxes)) props matrix boxes PosArray newPosArray
         = Some r
         /\ getNewPos props matrix boxes PosArray newPosArray = Some r
         /\ forall fuel, (count_others props boxes < fuel)%nat ->
               getNewPos_fuel fuel props matrix boxes PosArray newPosArray = Some r).
Proof.
  split; [split; [reflexivity | split; [intros fuel; reflexivity | reflexivity]] |].
  split.
  - intros boxes' pos' Hb. split.
    + intros fuel. simpl. rewrite Hb. reflexivity.
    + destruct (getNewPos_body_recurse _ _ _ _ _ _ _ Hb) as (b & i & Hint & Hnth & Ho & ->).
      exists b, i. split; [exact Hint |]. split; [symmetry; apply filter_i_remove_nth |].
      split; [reflexivity |]. split.
      * apply (remove_nth_length boxes i b Hnth).
      * apply (remove_nth_count props boxes i b Hnth Ho).
  - destruct (getNewPos_fuel_total props matrix PosArray (S (count_others props boxes))
                boxes newPosArray (Nat.lt_succ_diag_r _)) as [r Hr].
    exists r. split; [exact Hr |]. split.
    + unfold getNewPos. apply (getNewPos_fuel_mono _ _ _ _ _ _ _ _ Hr).
      pose proof (count_others_le_length props boxes). lia.
    + intros fuel Hlt. apply (getNewPos_fuel_mono _ _ _ _ _ _ _ _ Hr). lia.
Qed.

Lemma getNewPos_terminates_witness :
  let props := selectedProps twoObstacles (BProduct dragged3) in
  ((forall fuel,
       getNewPos_fuel (S fuel) props (boxPos props) (allItems props) twoObstaclesTarget None
       = getNewPos_fuel fuel props (boxPos props) [BProduct obstacle1; BProduct dragged3]
           twoObstaclesTarget (Some (0, 1 # 10, 1600 # 8000)))
   /\ exists b i,
       intersecting props (allItems props) twoObstaclesTarget = Some (b, i)
       /\ [BProduct obstacle1; BProduct dragged3]
          = filter_i (fun _ j => negb (j =? i)%nat) (allItems props)
       /\ [BProduct obstacle1; BProduct dragged3] = remove_nth i (allItems props)
       /\ length (allItems props) = 3%nat
       /\ count_others props (allItems props)
          = S (count_others props [BProduct obstacle1; BProduct dragged3]))
  /\ (exists r,
         getNewPos_fuel (S (count_others props (allItems props))) props (boxPos props)
           (allItems props) twoObstaclesTarget None = Some r
         /\ getNewPos props (boxPos props) (allItems props) twoObstaclesTarget None = Some r
         /\ forall fuel, (count_others props (allItems props) < fuel)%nat ->
               getNewPos_fuel fuel props (boxPos props) (allItems props) twoObstaclesTarget None
               = Some r).
Proof.
  intros props.
  destruct (getNewPos_terminates props (boxPos props) (allItems props) twoObstaclesTarget None)
    as (_ & Hcall & Hres).
  split; [| exact Hres].
  apply (Hcall [BProduct obstacle1; BProduct dragged3] (0, 1 # 10, 1600 # 8000)).
  vm_compute. reflexivity.
Defined.

(** ** The second reduce and the correction *)

Lemma min_intersection_unfrozen (props : boxprops) (o : SimBox) (PosArray pos : Vec3)
    (id0 : nat) (v : Q) :
  min_intersection props o PosArray pos = Some (id0, v) ->
  (id0 < 6)%nat /\ vget pos (id0 / 2) == vget PosArray (id0 / 2).
Proof.
  unfold min_intersection.
  set (P := fun ret : option (nat * Q) =>
              match ret with
              | None => True
              | Some (i, _) => (i < 6)%nat /\ vget pos (i / 2) == vget PosArray (i / 2)
              end).
  intros H.
  assert (HP : P (reduce_i (min_intersection_step props o PosArray pos)
                           (intersections props o pos) None)).
  { apply reduce_i_invariant.
    - exact I.
    - intros ret a i Hret Hnth.
      assert (Hi : (i < 6)%nat).
      { change 6%nat with (length (intersections props o pos)).
        apply nth_error_Some. congruence. }
      unfold min_intersection_step.
      destruct (Qneqb (vget pos (i / 2)) (vget PosArray (i / 2))) eqn:Efroz; [exact Hret |].
      apply Qneqb_false in Efroz.
      destruct (_ && _); [exact Hret |].
      destruct (_ && _); [exact Hret |].
      destruct ret as [[i' r1] |].
      + destruct (_ && _); [| exact Hret]. split; assumption.
      + split; assumption. }
  rewrite H in HP. exact HP.
Qed.

Lemma vget_PosArray_min (props : boxprops) (pos : Vec3) (k : nat) :
  (k < 3)%nat ->
  vget (PosArray_min props pos) k = vget pos k - vget (boxOrien props) k / 2.
Proof. intros Hk. destruct k as [| [| [| k]]]; try reflexivity; lia. Qed.

Lemma vget_PosArray_max (props : boxprops) (pos : Vec3) (k : nat) :
  (k < 3)%nat ->
  vget (PosArray_max props pos) k = vget pos k + vget (boxOrien props) k / 2.
Proof. intros Hk. destruct k as [| [| [| k]]]; try reflexivity; lia. Qed.

Lemma vget_tempPosArray (props : boxprops) (o : SimBox) (pos : Vec3) (id0 k : nat) :
  (k < 3)%nat ->
  vget (tempPosArray props o pos id0) k
  = if (k =? id0 / 2)%nat then nth id0 (adjustedPos props o) 0 else vget pos k.
Proof.
  intros Hk. destruct pos as [[x y] z].
  destruct k as [| [| [| k]]]; try reflexivity; lia.
Qed.

Lemma face_axis_bound (id0 : nat) : (id0 < 6)%nat -> (id0 / 2 < 3)%nat.
Proof. intros H. apply Nat.Div0.div_lt_upper_bound. lia. Qed.

(** Moving the centre to a face of the obstacle clears the obstacle on that
    axis, and really moves the centre when the two overlapped. *)
Lemma correction_separates (props : boxprops) (o : SimBox) (pos : Vec3) (id0 : nat) :
  (id0 < 6)%nat ->
  overlaps_item props pos o ->
  sep_axis props (tempPosArray props o pos id0) o (id0 / 2)
  /\ ~ vget (tempPosArray props o pos id0) (id0 / 2) == vget pos (id0 / 2).
Proof.
  intros Hid Hov.
  pose proof (face_axis_bound id0 Hid) as Hk.
  destruct (Hov (id0 / 2)%nat Hk) as [H1 H2].
  unfold sep_axis.
  rewrite vget_PosArray_min, vget_PosArray_max in * by exact Hk.
  rewrite vget_tempPosArray by exact Hk. rewrite Nat.eqb_refl.
  destruct id0 as [| [| [| [| [| [| id0]]]]]]; try lia;
    cbn [Nat.div Nat.divmod fst nth adjustedPos] in *;
    (split; [first [left; lra | right; lra] | lra]).
Qed.

Lemma sep_axis_same_coord (props : boxprops) (pos pos' : Vec3) (box : SimBox) (k : nat) :
  (k < 3)%nat -> vget pos' k = vget pos k ->
  sep_axis props pos box k -> sep_axis props pos' box k.
Proof.
  intros Hk Heq. unfold sep_axis.
  rewrite !vget_PosArray_min, !vget_PosArray_max by exact Hk.
  rewrite Heq. exact (fun H => H).
Qed.

(** C4, as the code has it. After a face correction is chosen, the
    activation calls itself on the corrected position, which differs from
    the working position on the axis of the face only, where it is the
    centre that touches the face, and on the list WITHOUT the obstacle just
    resolved: the other entries are all kept, so a new collision of the
    corrected position with any of them is found by the next scan, while the
    obstacle just resolved is not looked at again. The overlap test is read
    in exact arithmetic here; on doubles its verdict can differ for faces
    that touch to within rounding. *)
Theorem getNewPos_correction_call (props : boxprops) (matrix : Vec3)
    (boxes : list SimBox) (PosArray : Vec3) (newPosArray : option Vec3)
    (o : SimBox) (index id0 : nat) (v : Q) :
  let pos := match newPosArray with Some p => p | None => PosArray end in
  let pos' := tempPosArray props o pos id0 in
  intersecting props boxes pos = Some (o, index) ->
  min_intersection props o PosArray pos = Some (id0, v) ->
  getNewPos_body props matrix boxes PosArray newPosArray
  = Recurse (remove_nth index boxes) pos'
  /\ (forall fuel,
         getNewPos_fuel (S fuel) props matrix boxes PosArray newPosArray
         = getNewPos_fuel fuel props matrix (remove_nth index boxes) PosArray (Some pos'))
  /\ nth_error boxes index = Some o
  /\ length boxes = S (length (remove_nth index boxes))
  /\ (forall b, In b boxes -> b = o \/ In b (remove_nth index boxes))
  /\ (forall b, In b (remove_nth index boxes) -> In b boxes)
  /\ (forall k, (k < 3)%nat ->
                vget pos' k
                = if (k =? id0 / 2)%nat then nth id0 (adjustedPos props o) 0 else vget pos k)
  /\ (intersecting props (remove_nth index boxes) pos' = None
      <-> collision_free props (remove_nth index boxes) pos')
  /\ (forall b i, intersecting props (remove_nth index boxes) pos' = Some (b, i) ->
                  nth_error (remove_nth index boxes) i = Some b
                  /\ other props b /\ overlaps_item props pos' b).
Proof.
  intros pos pos' Hint Hmin.
  pose proof (intersecting_spec props boxes pos) as Hspec. rewrite Hint in Hspec.
  destruct Hspec as (Hnth & Ho & Hov & _).
  assert (Hbody : getNewPos_body props matrix boxes PosArray newPosArray
                  = Recurse (remove_nth index boxes) pos').
  { unfold getNewPos_body. fold pos. rewrite Hint, Hmin, filter_i_remove_nth. reflexivity. }
  split; [exact Hbody |].
  split; [intros fuel; simpl; rewrite Hbody; reflexivity |].
  split; [exact Hnth |].
  split; [apply (remove_nth_length boxes index o Hnth) |].
  split; [intros b Hb; apply (remove_nth_split boxes index o b Hnth Hb) |].
  split; [intros b Hb; apply (remove_nth_incl boxes index b Hb) |].
  split; [intros k Hk; apply vget_tempPosArray; exact Hk |].
  pose proof (intersecting_spec props (remove_nth index boxes) pos') as Hspec'.
  destruct (intersecting props (remove_nth index boxes) pos') as [[b i] |].
  - split.
    + split; [discriminate |]. intros Hfree. exfalso.
      destruct Hspec' as (Hnth' & Ho' & Hov' & _).
      apply (Hfree b); [eapply nth_error_In; exact Hnth' | exact Ho' | exact Hov'].
    + intros b' i' E. injection E as <- <-.
      destruct Hspec' as (Hnth' & Ho' & Hov' & _).
      split; [exact Hnth' | split; [exact Ho' | exact Hov']].
  - split.
    + split; [intros _; exact Hspec' | reflexivity].
    + intros b' i' E. discriminate E.
Qed.

Lemma getNewPos_correction_call_witness :
  let props := selectedProps twoObstacles (BProduct dragged3) in
  let pos' := tempPosArray props (BProduct obstacle2) twoObstaclesTarget 5 in
  getNewPos_body props (boxPos props) (allItems props) twoObstaclesTarget None
  = Recurse [BProduct obstacle1; BProduct dragged3] pos'
  /\ (forall b, In b [BProduct obstacle1; BProduct dragged3] -> In b (allItems props)).
Proof.
  intros props pos'.
  destruct (getNewPos_correction_call props (boxPos props) (allItems props)
              twoObstaclesTarget None (BProduct obstacle2) 1 5 (8000 # 160000))
    as (Hbody & _ & _ & _ & _ & Hkept & _).
  - vm_compute. reflexivity.
  - vm_compute. reflexivity.
  - split; [exact Hbody | exact Hkept].
Defined.

(** C4 as stated fails: the list of the recursive call after a correction
    is not the full list; the obstacle just resolved (box 2) is not in it. *)
Lemma getNewPos_correction_drops_obstacle :
  let props := selectedProps twoObstacles (BProduct dragged3) in
  exists pos',
    intersecting props (allItems props) twoObstaclesTarget = Some (BProduct obstacle2, 1%nat)
    /\ min_intersection props (BProduct obstacle2) twoObstaclesTarget twoObstaclesTarget
       = Some (5%nat, 8000 # 160000)
    /\ getNewPos_body props (boxPos props) (allItems props) twoObstaclesTarget None
       = Recurse [BProduct obstacle1; BProduct dragged3] pos'
    /\ veq pos' (0, 1 # 10, 1 # 5)
    /\ In (BProduct obstacle2) (allItems props)
    /\ ~ In (BProduct obstacle2) [BProduct obstacle1; BProduct dragged3]
    /\ [BProduct obstacle1; BProduct dragged3] <> allItems props.
Proof.
  intros props. eexists.
  split; [vm_compute; reflexivity |].
  split; [vm_compute; reflexivity |].
  split; [vm_compute; reflexivity |].
  split; [vm_compute; repeat split; reflexivity |].
  split; [simpl; right; left; reflexivity |].
  split; [simpl; intros [H | [H | []]]; discriminate H |].
  simpl. discriminate.
Qed.

(** ** Safety of the resolver in exact arithmetic *)

Section Safety.
Variable props : boxprops.
Variable matrix : Vec3.
Variable all : list SimBox.
Variable PosArray : Vec3.

(** The position the fallback returns to overlaps nothing. *)
Hypothesis matrix_free : collision_free props all matrix.

Lemma fallback_returns_matrix (fuel : nat) (boxes : list SimBox) (r : Vec3) :
  (forall b, In b boxes -> In b all) ->
  getNewPos_fuel fuel props matrix boxes PosArray (Some matrix) = Some r ->
  r = matrix.
Proof.
  intros Hincl H. destruct fuel as [| fuel]; [discriminate H |].
  simpl in H. unfold getNewPos_body in H.
  pose proof (intersecting_spec props boxes matrix) as Hspec.
  destruct (intersecting props boxes matrix) as [[b i] |].
  - destruct Hspec as (Hnth & Ho & Hov & _). exfalso.
    apply (matrix_free b); [apply Hincl; eapply nth_error_In; exact Hnth | exact Ho | exact Hov].
  - injection H as <-. reflexivity.
Qed.

Lemma resolver_inv_start : resolver_inv props all PosArray all PosArray.
Proof.
  split; [intros b Hb; exact Hb | intros b Hb _; left; exact Hb].
Qed.

Lemma resolver_inv_step (boxes : list SimBox) (pos : Vec3) (o : SimBox)
    (index id0 : nat) (v : Q) :
  resolver_inv props all PosArray boxes pos ->
  intersecting props boxes pos = Some (o, index) ->
  min_intersection props o PosArray pos = Some (id0, v) ->
  resolver_inv props all PosArray (remove_nth index boxes) (tempPosArray props o pos id0).
Proof.
  intros [Hincl Hcov] Hint Hmin.
  pose proof (intersecting_spec props boxes pos) as Hspec. rewrite Hint in Hspec.
  destruct Hspec as (Hnth & Ho & Hov & _).
  destruct (min_intersection_unfrozen _ _ _ _ _ _ Hmin) as [Hid Hfree].
  pose proof (face_axis_bound id0 Hid) as Hax.
  destruct (correction_separates props o pos id0 Hid Hov) as [Hsep Hmoved].
  assert (Hcleared : frozen_sep props PosArray (tempPosArray props o pos id0) o).
  { exists (id0 / 2)%nat. split; [exact Hax |]. split; [exact Hsep |].
    intros Heq. apply Hmoved. rewrite Heq. symmetry. exact Hfree. }
  split.
  - intros b Hb. apply Hincl. eapply remove_nth_incl. exact Hb.
  - intros b Hb Hob. destruct (Hcov b Hb Hob) as [Hin | (k & Hk & Hsepk & Hfrozen)].
    + destruct (remove_nth_split boxes index o b Hnth Hin) as [-> | Hin'].
      * right. exact Hcleared.
      * left. exact Hin'.
    + right. exists k.
      assert (Hne : (k =? id0 / 2)%nat = false).
      { apply Nat.eqb_neq. intros ->. apply Hfrozen. exact Hfree. }
      assert (Hsame : vget (tempPosArray props o pos id0) k = vget pos k).
      { rewrite vget_tempPosArray by exact Hk. rewrite Hne. reflexivity. }
      split; [exact Hk |]. split.
      * apply (sep_axis_same_coord props pos _ b k Hk Hsame Hsepk).
      * rewrite Hsame. exact Hfrozen.
Qed.

Lemma resolver_inv_safe (fuel : nat) :
  forall (boxes : list SimBox) (newPosArray : option Vec3) (r : Vec3),
    resolver_inv props all PosArray boxes
      (match newPosArray with Some p => p | None => PosArray end) ->
    getNewPos_fuel fuel props matrix boxes PosArray newPosArray = Some r ->
    collision_free props all r.
Proof.
  induction fuel as [| fuel IH]; intros boxes newPosArray r Hinv H; [discriminate H |].
  simpl in H. unfold getNewPos_body in H.
  set (pos := match newPosArray with Some p => p | None => PosArray end) in *.
  pose proof (intersecting_spec props boxes pos) as Hspec.
  destruct (intersecting props boxes pos) as [[o index] |] eqn:Hint.
  - destruct (min_intersection props o PosArray pos) as [[id0 v] |] eqn:Hmin;
      rewrite filter_i_remove_nth in H.
    + apply (IH (remove_nth index boxes) (Some (tempPosArray props o pos id0)) r);
        [exact (resolver_inv_step boxes pos o index id0 v Hinv Hint Hmin) | exact H].
    + rewrite (fallback_returns_matrix fuel (remove_nth index boxes) r); [exact matrix_free | | exact H].
      intros b Hb. apply (proj1 Hinv). eapply remove_nth_incl. exact Hb.
  - injection H as <-. intros b Hb Hob.
    destruct (proj2 Hinv b Hb Hob) as [Hin | (k & Hk & Hsep & _)].
    + exact (Hspec b Hin Hob).
    + exact (sep_axis_not_overlaps props pos b k Hk Hsep).
Qed.

Lemma getNewPos_safe_from_free_matrix :
  exists r,
    getNewPos props matrix all PosArray None = Some r /\ collision_free props all r.
Proof.
  destruct (getNewPos_fuel_total props matrix PosArray (S (length all)) all None) as [r Hr].
  - pose proof (count_others_le_length props all). lia.
  - exists r. split; [exact Hr |].
    apply (resolver_inv_safe (S (length all)) all None r); [apply resolver_inv_start | exact Hr].
Qed.
End Safety.

Lemma drag_safe_from_free_matrix (props : boxprops) (moves : list Vec3) :
  forall matrix,
    collision_free props (allItems props) matrix ->
    exists r, drag props matrix moves = Some r /\ collision_free props (allItems props) r.
Proof.
  induction moves as [| m moves IH]; intros matrix Hfree; simpl.
  - exists matrix. split; [reflexivity | exact Hfree].
  - unfold onDrag.
    destruct (getNewPos_safe_from_free_matrix props matrix (allItems props)
                (clamp m (pallet_min props) (pallet_max props)) Hfree) as (r & Hr & Hfree').
    rewrite Hr. apply IH. exact Hfree'.
Qed.

(** What the algorithm achieves when its arithmetic is exact. When the
    position currently held by the drag gizmo of the selected item (the
    position the resolver falls back to) overlaps no other item of the list,
    the resolver returns a position, for every target, at which the selected
    item overlaps no other item of the list; hence a whole drag gesture that
    starts from such a position ends on such a position. With the rounding
    of doubles this is lost; section "Rounding at touching faces" below has
    the case. *)
Theorem getNewPos_no_overlap (props : boxprops) (matrix : Vec3)
    (boxes : list SimBox) (PosArray : Vec3) :
  collision_free props boxes matrix ->
  (exists r,
      getNewPos props matrix boxes PosArray None = Some r
      /\ forall box, In box boxes -> other props box -> ~ overlaps_item props r box)
  /\ (boxes = allItems props ->
      forall moves, exists r,
        drag props matrix moves = Some r
        /\ forall box, In box boxes -> other props box -> ~ overlaps_item props r box).
Proof.
  intros Hfree. split.
  - exact (getNewPos_safe_from_free_matrix props matrix boxes PosArray Hfree).
  - intros -> moves. exact (drag_safe_from_free_matrix props moves matrix Hfree).
Qed.

Lemma getNewPos_no_overlap_witness :
  let props := selectedProps twoObstacles (BProduct dragged3) in
  (exists r,
      getNewPos props (boxPos props) (allItems props) twoObstaclesTarget None = Some r
      /\ forall box, In box (allItems props) -> other props box -> ~ overlaps_item props r box)
  /\ (forall moves, exists r,
         drag props (boxPos props) moves = Some r
         /\ forall box, In box (allItems props) -> other props box ->
                        ~ overlaps_item props r box).
Proof.
  intros props.
  destruct (getNewPos_no_overlap props (boxPos props) (allItems props) twoObstaclesTarget)
    as [Hres Hdrag].
  - intros box Hin Ho. apply intersects_false.
    simpl in Hin. destruct Hin as [<- | [<- | [<- | []]]];
      [vm_compute; reflexivity | vm_compute; reflexivity | exfalso; apply Ho; reflexivity].
  - split; [exact Hres | exact (Hdrag eq_refl)].
Defined.

(** A second way to an overlap, whatever the arithmetic. In the tight-fit
    batch nothing overlaps; after the horizontal rotation of box 1 (a click
    on the rotation button) box 1 reaches into box 2. Dragging box 1 then
    finds no admissible face of box 2, falls back to the position box 1
    already has, and returns it: the resolved position overlaps box 2. *)
Lemma getNewPos_overlap_after_rotation :
  let before := selectedProps tightFit (BProduct slim1) in
  let sel := BProduct (product_with_rotation slim1 R0) in
  let props := selectedProps tightFitRotated sel in
  collision_free before (allItems before) (boxPos before)
  /\ allItems props = [sel; BProduct block2]
  /\ other props (BProduct block2)
  /\ exists r,
       getNewPos props (boxPos props) (allItems props)
         (clamp (0, 0, 0) (pallet_min props) (pallet_max props)) None = Some r
       /\ onDrag props (boxPos props) (0, 0, 0) = Some r
       /\ overlaps_item props r (BProduct block2).
Proof.
  intros before sel props.
  split.
  { intros box Hin Ho. apply intersects_false.
    simpl in Hin. destruct Hin as [<- | [<- | []]];
      [exfalso; apply Ho; reflexivity | vm_compute; reflexivity]. }
  split; [reflexivity |].
  split; [unfold other; simpl; discriminate |].
  eexists. split; [vm_compute; reflexivity |].
  split; [vm_compute; reflexivity |].
  apply intersects_true. vm_compute. reflexivity.
Qed.

(** ** Rounding at touching faces *)

(** What follows is about the resolver on doubles, [Binary64.getNewPos].
    Two boxes that touch have, in exact arithmetic, a face coordinate in
    common; computed in doubles the two coordinates can differ in the last
    place, and the overlap test of the source, which compares them without
    a tolerance, then reports the touching boxes as overlapping. *)

(** On doubles as well, the resolver returns the target unchanged exactly
    when its own scan reports no obstacle at it. *)
Lemma binary64_getNewPos_unobstructed (props : boxprops) (matrix : Binary64.Vec3F)
    (boxes : list SimBox) (PosArray : Binary64.Vec3F) :
  Binary64.intersecting props boxes PosArray = None ->
  Binary64.getNewPos props matrix boxes PosArray None = Some PosArray.
Proof.
  intros H. unfold Binary64.getNewPos. cbn [Binary64.getNewPos_fuel].
  unfold Binary64.getNewPos_body. rewrite H. reflexivity.
Qed.

(** The obstacle the scan on doubles reports sits at the index it reports. *)
Lemma binary64_intersecting_index (props : boxprops) (boxes : list SimBox)
    (pos : Binary64.Vec3F) (b : SimBox) (i : nat) :
  Binary64.intersecting props boxes pos = Some (b, i) -> nth_error boxes i = Some b.
Proof.
  unfold Binary64.intersecting.
  set (P := fun ret : option (SimBox * nat) =>
              forall b i, ret = Some (b, i) -> nth_error boxes i = Some b).
  assert (H : P (reduce_i (Binary64.intersecting_step props pos) boxes None)).
  { apply reduce_i_invariant.
    - intros b' i' E. discriminate E.
    - intros ret a j Hret Hnth b' i' E. unfold Binary64.intersecting_step in E.
      destruct (negb (Z.eqb (batchdetailid a) (batchdetailid (data props)))).
      + destruct (Binary64.intersects props pos a).
        * injection E as <- <-. exact Hnth.
        * exact (Hret b' i' E).
      + exact (Hret b' i' E). }
  exact (H b i).
Qed.

Lemma binary64_getNewPos_fuel_total (props : boxprops) (matrix PosArray : Binary64.Vec3F)
    (fuel : nat) :
  forall boxes newPosArray,
    (length boxes < fuel)%nat ->
    exists r, Binary64.getNewPos_fuel fuel props matrix boxes PosArray newPosArray = Some r.
Proof.
  induction fuel as [| fuel IH]; intros boxes newPosArray Hlt; [lia |].
  cbn [Binary64.getNewPos_fuel]. unfold Binary64.getNewPos_body.
  set (pos := match newPosArray with Some v => v | None => PosArray end).
  destruct (Binary64.intersecting props boxes pos) as [[b i] |] eqn:Hint.
  - apply binary64_intersecting_index in Hint.
    pose proof (remove_nth_length boxes i b Hint) as Hlen.
    rewrite filter_i_remove_nth.
    destruct (Binary64.min_intersection props b PosArray pos) as [[id0 v] |];
      apply IH; lia.
  - exists pos. reflexivity.
Qed.

(** On doubles as well, the resolver returns a position on every input:
    each call drops one entry of the list. *)
Lemma binary64_getNewPos_total (props : boxprops) (matrix : Binary64.Vec3F)
    (boxes : list SimBox) (PosArray : Binary64.Vec3F) (newPosArray : option Binary64.Vec3F) :
  exists r, Binary64.getNewPos props matrix boxes PosArray newPosArray = Some r.
Proof.
  unfold Binary64.getNewPos. apply binary64_getNewPos_fuel_total. lia.
Qed.


(** C1, at a failing input. In the batch "against the neighbour" no two
    boxes overlap, and the selected box 3 is dragged along one axis to a
    target within the clamp bounds, where it touches box 2 and reaches into
    box 1. The code reports the touching box 2 as the obstacle (last in the
    list), corrects along x by nothing (the face of box 2 is where the box
    already is) and drops box 2 from the list; it then resolves box 1 by
    moving the box one unit along x, into box 2, which is no longer
    checked. The position returned is not the position held by the gizmo,
    and at it the selected box overlaps box 2 by 1 x 2 x 2 units, both by
    the code's test and in exact arithmetic. *)
Theorem getNewPos_binary64_overlaps :
  let props := selectedProps againstNeighbour (BProduct slider3) in
  let target := Binary64.V2F againstNeighbourTarget in
  let result : Vec3 := (-1 # 4, 1 # 10, -1 # 10) in
  allItems props = [BProduct corner1; BProduct neighbour2; BProduct slider3]
  /\ collision_free (selectedProps againstNeighbour (BProduct corner1)) (allItems props)
       (boxPos (selectedProps againstNeighbour (BProduct corner1)))
  /\ collision_free props (allItems props) (boxPos props)
  /\ Binary64.collision_free props (allItems props) (Binary64.boxPos props) = true
  /\ Binary64.in_bounds props target = true
  /\ Binary64.getNewPos_body props (Binary64.boxPos props) (allItems props) target None
     = Binary64.Recurse [BProduct corner1; BProduct slider3]
         (Binary64.tempPosArray props (BProduct neighbour2) target 0)
  /\ Binary64.tempPosArray props (BProduct neighbour2) target 0 = target
  /\ Binary64.getNewPos_body props (Binary64.boxPos props) [BProduct corner1; BProduct slider3]
       target (Some target)
     = Binary64.Recurse [BProduct slider3] (Binary64.V2F result)
  /\ Binary64.getNewPos props (Binary64.boxPos props) (allItems props) target None
     = Some (Binary64.V2F result)
  /\ Binary64.neF (Binary64.vgetF (Binary64.V2F result) 0)
                  (Binary64.vgetF (Binary64.boxPos props) 0) = true
  /\ Binary64.intersects props (Binary64.V2F result) (BProduct neighbour2) = true
  /\ overlaps_item props result (BProduct neighbour2)
  /\ (forall k, (k < 3)%nat ->
        Qmin (vget (PosArray_max props result) k) (vget (box_max props (BProduct neighbour2)) k)
        - Qmax (vget (PosArray_min props result) k) (vget (box_min props (BProduct neighbour2)) k)
        == nth k [1 # 10; 2 # 10; 2 # 10] 0)
  /\ exists r, getNewPos props (boxPos props) (allItems props) againstNeighbourTarget None = Some r
               /\ collision_free props (allItems props) r.
Proof.
  intros props target result.
  split; [reflexivity |].
  split.
  { intros box Hin Ho. apply intersects_false.
    destruct Hin as [<- | [<- | [<- | []]]].
    - exfalso. apply Ho. reflexivity.
    - vm_compute. reflexivity.
    - vm_compute. reflexivity. }
  split.
  { intros box Hin Ho. apply intersects_false.
    destruct Hin as [<- | [<- | [<- | []]]].
    - vm_compute. reflexivity.
    - vm_compute. reflexivity.
    - exfalso. apply Ho. reflexivity. }
  do 8 (split; [vm_compute; reflexivity |]).
  split; [apply intersects_true; vm_compute; reflexivity |].
  split.
  { intros k Hk. destruct k as [| [| [| k]]]; [vm_compute; reflexivity .. | lia]. }
  exists (-2000 # 8000, 2400 # 8000, -1 # 10).
  split; [vm_compute; reflexivity |].
  intros box Hin Ho. apply intersects_false.
  destruct Hin as [<- | [<- | [<- | []]]].
  - vm_compute. reflexivity.
  - vm_compute. reflexivity.
  - exfalso. apply Ho. reflexivity.
Qed.

(** * Further properties of the code *)

(** ** The second reduce: which faces survive *)

Lemma Qgtb_true (a b : Q) : Qgtb a b = true <-> b < a.
Proof.
  unfold Qgtb. rewrite negb_true_iff. split; intros H.
  - apply Qnot_le_lt. intros Hle. apply Qle_bool_iff in Hle. congruence.
  - destruct (Qle_bool a b) eqn:E; [| reflexivity]. apply Qle_bool_iff in E. lra.
Qed.

Lemma Qgtb_false (a b : Q) : Qgtb a b = false <-> a <= b.
Proof.
  unfold Qgtb. rewrite negb_false_iff. apply Qle_bool_iff.
Qed.

Lemma Qltb_false (a b : Q) : Qltb a b = false <-> b <= a.
Proof.
  unfold Qltb. rewrite negb_false_iff. apply Qle_bool_iff.
Qed.

Lemma min_intersection_step_admissible (props : boxprops) (o : SimBox) (PosArray pos : Vec3)
    (ret : option (nat * Q)) (x : Q) (id : nat) :
  min_intersection_step props o PosArray pos ret x id
  = if admissible props o PosArray pos id
    then match ret with
         | None => Some (id, x)
         | Some (_, r1) => if Qgtb x 0 && Qgtb r1 x then Some (id, x) else ret
         end
    else ret.
Proof.
  unfold min_intersection_step, admissible.
  destruct (Qneqb _ _); [reflexivity |].
  destruct (_ && _); [reflexivity |].
  destruct (_ && _); reflexivity.
Qed.

Lemma min_intersection_fold (props : boxprops) (o : SimBox) (PosArray pos : Vec3)
    (l : list Q) :
  (forall j x, nth_error l j = Some x ->
               admissible props o PosArray pos j = true -> 0 < x) ->
  match reduce_i (min_intersection_step props o PosArray pos) l None with
  | None => forall j, (j < length l)%nat -> admissible props o PosArray pos j = false
  | Some (id, v) =>
      nth_error l id = Some v
      /\ admissible props o PosArray pos id = true
      /\ (forall j x, nth_error l j = Some x ->
                      admissible props o PosArray pos j = true -> v <= x)
      /\ (forall j x, (j < id)%nat -> nth_error l j = Some x ->
                      admissible props o PosArray pos j = true -> v < x)
  end.
Proof.
  set (adm := admissible props o PosArray pos).
  set (step := min_intersection_step props o PosArray pos).
  induction l as [| a l IH] using rev_ind; intros Hpos.
  - intros j Hj. simpl in Hj. lia.
  - rewrite reduce_i_snoc. unfold step at 1. rewrite min_intersection_step_admissible.
    fold adm. fold step.
    assert (Hpos' : forall j x, nth_error l j = Some x -> adm j = true -> 0 < x).
    { intros j x Hj. apply Hpos. rewrite nth_error_app1; [exact Hj |].
      apply nth_error_Some. congruence. }
    specialize (IH Hpos').
    assert (Hlast : nth_error (l ++ [a]) (length l) = Some a).
    { rewrite nth_error_app2, Nat.sub_diag; [reflexivity | lia]. }
    assert (Hsplit : forall j x, nth_error (l ++ [a]) j = Some x ->
              (nth_error l j = Some x /\ (j < length l)%nat) \/ (j = length l /\ x = a)).
    { intros j x Hj.
      destruct (Nat.lt_ge_cases j (length l)) as [Hlt | Hge].
      - left. rewrite nth_error_app1 in Hj by exact Hlt. split; assumption.
      - right. rewrite nth_error_app2 in Hj by exact Hge.
        destruct (j - length l)%nat as [| n] eqn:E; simpl in Hj.
        + injection Hj as <-. split; [lia | reflexivity].
        + destruct n; discriminate Hj. }
    destruct (adm (length l)) eqn:Eadm.
    + pose proof (Hpos (length l) a Hlast Eadm) as Ha.
      destruct (reduce_i step l None) as [[id v] |].
      * destruct IH as (Hnth & Hadm & Hmin & Hfirst).
        assert (Hid : (id < length l)%nat) by (apply nth_error_Some; congruence).
        destruct (Qgtb a 0 && Qgtb v a) eqn:Ecmp.
        -- apply andb_true_iff in Ecmp. destruct Ecmp as [_ Hva]. apply Qgtb_true in Hva.
           split; [exact Hlast |]. split; [exact Eadm |]. split.
           ++ intros j x Hj Hadmj. destruct (Hsplit j x Hj) as [[Hj' _] | [_ ->]].
              ** pose proof (Hmin j x Hj' Hadmj). lra.
              ** lra.
           ++ intros j x Hlt Hj Hadmj. destruct (Hsplit j x Hj) as [[Hj' _] | [-> _]]; [| lia].
              pose proof (Hmin j x Hj' Hadmj). lra.
        -- assert (Hva : v <= a).
           { apply andb_false_iff in Ecmp. destruct Ecmp as [E | E].
             - apply Qgtb_false in E. lra.
             - apply Qgtb_false in E. exact E. }
           split; [rewrite nth_error_app1; assumption |]. split; [exact Hadm |]. split.
           ++ intros j x Hj Hadmj. destruct (Hsplit j x Hj) as [[Hj' _] | [_ ->]].
              ** exact (Hmin j x Hj' Hadmj).
              ** exact Hva.
           ++ intros j x Hlt Hj Hadmj. destruct (Hsplit j x Hj) as [[Hj' _] | [-> _]]; [| lia].
              exact (Hfirst j x Hlt Hj' Hadmj).
      * split; [exact Hlast |]. split; [exact Eadm |]. split.
        -- intros j x Hj Hadmj. destruct (Hsplit j x Hj) as [[Hj' Hlt] | [_ ->]].
           ++ rewrite (IH j Hlt) in Hadmj. discriminate.
           ++ lra.
        -- intros j x Hlt Hj Hadmj. rewrite (IH j Hlt) in Hadmj. discriminate.
    + destruct (reduce_i step l None) as [[id v] |].
      * destruct IH as (Hnth & Hadm & Hmin & Hfirst).
        assert (Hid : (id < length l)%nat) by (apply nth_error_Some; congruence).
        split; [rewrite nth_error_app1; assumption |]. split; [exact Hadm |]. split.
        -- intros j x Hj Hadmj. destruct (Hsplit j x Hj) as [[Hj' _] | [-> _]].
           ++ exact (Hmin j x Hj' Hadmj).
           ++ congruence.
        -- intros j x Hlt Hj Hadmj. destruct (Hsplit j x Hj) as [[Hj' _] | [-> _]]; [| lia].
           exact (Hfirst j x Hlt Hj' Hadmj).
      * intros j Hj. rewrite length_app in Hj. simpl in Hj.
        destruct (Nat.eq_dec j (length l)) as [-> | Hne]; [exact Eadm | apply IH; lia].
Qed.


Lemma some_eq {A : Type} (a b : A) : Some a = Some b -> a = b.
Proof. intros H. injection H as H. exact H. Qed.

Lemma intersections_positive (props : boxprops) (o : SimBox) (pos : Vec3) (j : nat) (x : Q) :
  overlaps_item props pos o ->
  nth_error (intersections props o pos) j = Some x -> 0 < x.
Proof.
  intros Hov Hj.
  destruct (Hov 0%nat ltac:(lia)) as [H0 H0'].
  destruct (Hov 1%nat ltac:(lia)) as [H1 H1'].
  destruct (Hov 2%nat ltac:(lia)) as [H2 H2'].
  unfold intersections in Hj.
  destruct j as [| [| [| [| [| [| j]]]]]]; cbn [nth_error] in Hj;
    try (apply some_eq in Hj; rewrite <- Hj; lra).
  destruct j; discriminate Hj.
Qed.

(** ** The item stays inside the container *)

(** Linear arithmetic with halves written as divisions by two. *)
Ltac lra_halves :=
  unfold Qdiv in *; change (/ 2) with (1 # 2) in *; lra.


Lemma admissible_bounds (props : boxprops) (o : SimBox) (PosArray pos : Vec3) (id : nat) :
  (id < 6)%nat ->
  admissible props o PosArray pos id = true ->
  (id mod 2 = 0%nat ->
   vget (pallet_min props) (id / 2) <= nth id (adjustedPos props o) 0)
  /\ (id mod 2 = 1%nat ->
      nth id (adjustedPos props o) 0 <= vget (pallet_max props) (id / 2)).
Proof.
  intros Hid Hadm. unfold admissible in Hadm.
  apply andb_true_iff in Hadm. destruct Hadm as [Hadm Hodd].
  apply andb_true_iff in Hadm. destruct Hadm as [_ Heven].
  apply negb_true_iff in Heven, Hodd.
  destruct id as [| [| [| [| [| [| id]]]]]]; try lia;
    cbn [Nat.modulo Nat.div Nat.divmod fst snd Nat.eqb Nat.sub andb nth pallet_minmax] in *;
    (split; intros Hm; try discriminate Hm).
  all: first [apply Qgtb_false in Heven; exact Heven | apply Qltb_false in Hodd; exact Hodd].
Qed.

Lemma correction_in_bounds (props : boxprops) (o : SimBox) (PosArray pos : Vec3) (id0 : nat) :
  (id0 < 6)%nat ->
  admissible props o PosArray pos id0 = true ->
  overlaps_item props pos o ->
  in_bounds props pos ->
  in_bounds props (tempPosArray props o pos id0).
Proof.
  intros Hid Hadm Hov Hin k Hk.
  rewrite vget_tempPosArray by exact Hk.
  destruct (Nat.eqb_spec k (id0 / 2)) as [-> | Hne]; [| exact (Hin k Hk)].
  destruct (admissible_bounds props o PosArray pos id0 Hid Hadm) as [Heven Hodd].
  destruct (Hov (id0 / 2)%nat Hk) as [H1 H2].
  destruct (Hin (id0 / 2)%nat Hk) as [Hlo Hhi].
  rewrite vget_PosArray_min, vget_PosArray_max in * by exact Hk.
  destruct id0 as [| [| [| [| [| [| id0]]]]]]; try lia;
    cbn [Nat.modulo Nat.div Nat.divmod fst snd Nat.sub nth adjustedPos] in *;
    first [ specialize (Heven eq_refl); split; lra
          | specialize (Hodd eq_refl); split; lra ].
Qed.

Lemma min_intersection_admissible (props : boxprops) (o : SimBox) (PosArray pos : Vec3)
    (id0 : nat) (v : Q) :
  overlaps_item props pos o ->
  min_intersection props o PosArray pos = Some (id0, v) ->
  (id0 < 6)%nat /\ admissible props o PosArray pos id0 = true.
Proof.
  intros Hov Hmin.
  pose proof (min_intersection_fold props o PosArray pos (intersections props o pos)) as H.
  unfold min_intersection in Hmin. rewrite Hmin in H.
  destruct H as (Hnth & Hadm & _).
  { intros j x Hj _. exact (intersections_positive props o pos j x Hov Hj). }
  split; [| exact Hadm].
  change 6%nat with (length (intersections props o pos)).
  apply nth_error_Some. congruence.
Qed.

Lemma getNewPos_fuel_in_bounds (props : boxprops) (matrix PosArray : Vec3) (fuel : nat) :
  in_bounds props matrix ->
  forall boxes newPosArray r,
    in_bounds props (match newPosArray with Some p => p | None => PosArray end) ->
    getNewPos_fuel fuel props matrix boxes PosArray newPosArray = Some r ->
    in_bounds props r.
Proof.
  intros Hm. induction fuel as [| fuel IH]; intros boxes newPosArray r Hin H; [discriminate H |].
  simpl in H. unfold getNewPos_body in H.
  set (pos := match newPosArray with Some p => p | None => PosArray end) in *.
  pose proof (intersecting_spec props boxes pos) as Hspec.
  destruct (intersecting props boxes pos) as [[o index] |].
  - destruct Hspec as (_ & _ & Hov & _).
    destruct (min_intersection props o PosArray pos) as [[id0 v] |] eqn:Hmin.
    + destruct (min_intersection_admissible props o PosArray pos id0 v Hov Hmin) as [Hid Hadm].
      refine (IH _ (Some (tempPosArray props o pos id0)) r _ H).
      exact (correction_in_bounds props o PosArray pos id0 Hid Hadm Hov Hin).
    + exact (IH _ (Some matrix) r Hm H).
  - apply some_eq in H. rewrite <- H. exact Hin.
Qed.

(** X2. The resolver never pushes the item out of the clamp bounds: when
    the target and the position held by the gizmo are within the bounds,
    so is the resolved position. *)
Theorem getNewPos_in_bounds (props : boxprops) (matrix : Vec3)
    (boxes : list SimBox) (PosArray : Vec3) :
  in_bounds props PosArray ->
  in_bounds props matrix ->
  exists r,
    getNewPos props matrix boxes PosArray None = Some r /\ in_bounds props r.
Proof.
  intros HP Hm.
  destruct (getNewPos_fuel_total props matrix PosArray (S (length boxes)) boxes None) as [r Hr].
  - pose proof (count_others_le_length props boxes). lia.
  - exists r. split; [exact Hr |].
    exact (getNewPos_fuel_in_bounds props matrix PosArray (S (length boxes)) Hm boxes None r HP Hr).
Qed.

Lemma in_bounds_decide (props : boxprops) (pos : Vec3) :
  (Qle_bool (vget (pallet_min props) 0) (vget pos 0)
   && Qle_bool (vget pos 0) (vget (pallet_max props) 0)
   && Qle_bool (vget (pallet_min props) 1) (vget pos 1)
   && Qle_bool (vget pos 1) (vget (pallet_max props) 1)
   && Qle_bool (vget (pallet_min props) 2) (vget pos 2)
   && Qle_bool (vget pos 2) (vget (pallet_max props) 2))%bool = true ->
  in_bounds props pos.
Proof.
  intros H. repeat (apply andb_true_iff in H; destruct H as [H ?]).
  repeat match goal with Hb : Qle_bool _ _ = true |- _ => apply Qle_bool_iff in Hb end.
  intros k Hk. destruct k as [| [| [| k]]]; [split; assumption .. | lia].
Qed.

Lemma getNewPos_in_bounds_witness :
  let props := selectedProps twoObstacles (BProduct dragged3) in
  exists r,
    getNewPos props (boxPos props) (allItems props) twoObstaclesTarget None = Some r
    /\ in_bounds props r.
Proof.
  intros props.
  apply (getNewPos_in_bounds props (boxPos props) (allItems props) twoObstaclesTarget);
    apply in_bounds_decide; vm_compute; reflexivity.
Defined.

Lemma in_bounds_inside_container (props : boxprops) (pos : Vec3) :
  in_bounds props pos <-> inside_container props pos.
Proof.
  unfold in_bounds, inside_container.
  rewrite !vget_PosArray_min, !vget_PosArray_max by lia.
  unfold pallet_min, pallet_max. cbn [vget].
  split.
  - intros H.
    destruct (H 0%nat ltac:(lia)) as [? ?].
    destruct (H 1%nat ltac:(lia)) as [? ?].
    destruct (H 2%nat ltac:(lia)) as [? ?].
    cbn [vget] in *. clear H. repeat split; lra_halves.
  - intros (? & ? & ? & ? & ? & ?) k Hk.
    destruct k as [| [| [| k]]]; [cbn [vget]; split; lra_halves .. | lia].
Qed.

Lemma clamp_in_bounds (props : boxprops) (v : Vec3) :
  fits props ->
  in_bounds props (clamp v (pallet_min props) (pallet_max props)).
Proof.
  intros Hfit.
  assert (Hord : forall k, (k < 3)%nat ->
            vget (pallet_min props) k <= vget (pallet_max props) k).
  { intros k Hk. pose proof (Hfit k Hk) as Hf.
    unfold pallet_min, pallet_max.
    destruct k as [| [| [| k]]]; [cbn [vget] in *; lra_halves .. | lia]. }
  intros k Hk. pose proof (Hord k Hk) as Ho. unfold clamp.
  destruct k as [| [| [| k]]]; [| | | lia]; cbn [vget]; split;
    first [ apply Q.le_max_l
          | apply Q.max_lub; [exact Ho | apply Q.le_min_l] ].
Qed.

Lemma inside_container_decide (props : boxprops) (pos : Vec3) :
  (Qle_bool (vget (pallet_min props) 0) (vget pos 0)
   && Qle_bool (vget pos 0) (vget (pallet_max props) 0)
   && Qle_bool (vget (pallet_min props) 1) (vget pos 1)
   && Qle_bool (vget pos 1) (vget (pallet_max props) 1)
   && Qle_bool (vget (pallet_min props) 2) (vget pos 2)
   && Qle_bool (vget pos 2) (vget (pallet_max props) 2))%bool = true ->
  inside_container props pos.
Proof.
  intros H. apply in_bounds_inside_container, in_bounds_decide. exact H.
Qed.

Lemma fits_decide (props : boxprops) :
  (Qle_bool (vget (boxOrien props) 0) (vget (adjustedContSize props) 0)
   && Qle_bool (vget (boxOrien props) 1) (vget (adjustedContSize props) 1)
   && Qle_bool (vget (boxOrien props) 2) (vget (adjustedContSize props) 2))%bool = true ->
  fits props.
Proof.
  intros H. repeat (apply andb_true_iff in H; destruct H as [H ?]).
  repeat match goal with Hb : Qle_bool _ _ = true |- _ => apply Qle_bool_iff in Hb end.
  intros k Hk. destruct k as [| [| [| k]]]; [assumption .. | lia].
Qed.

(** X3. A drag keeps the item inside the container. When the selected
    item, as it is turned, is no larger than the load volume and the gizmo
    starts inside the load volume, then after every pointer move of a drag
    gesture, wherever the pointer goes, the item lies inside the load
    volume. *)
Theorem drag_inside_container (props : boxprops) (moves : list Vec3) :
  fits props ->
  forall matrix,
    inside_container props matrix ->
    exists r, drag props matrix moves = Some r /\ inside_container props r.
Proof.
  intros Hfit. induction moves as [| m moves IH]; intros matrix Hin; simpl.
  - exists matrix. split; [reflexivity | exact Hin].
  - unfold onDrag.
    set (target := clamp m (pallet_min props) (pallet_max props)).
    assert (Ht : in_bounds props target) by (apply clamp_in_bounds; exact Hfit).
    apply in_bounds_inside_container in Hin.
    destruct (getNewPos_fuel_total props matrix target (S (length (allItems props)))
                (allItems props) None) as [r Hr].
    { pose proof (count_others_le_length props (allItems props)). lia. }
    unfold getNewPos. rewrite Hr. apply IH.
    apply in_bounds_inside_container.
    exact (getNewPos_fuel_in_bounds props matrix target _ Hin (allItems props) None r Ht Hr).
Qed.

Lemma drag_inside_container_witness :
  let props := selectedProps twoObstacles (BProduct dragged3) in
  exists r,
    drag props (boxPos props) [(0, 0, 0); (5, 5, 5); (-3, 0, 1 # 10)] = Some r
    /\ inside_container props r.
Proof.
  intros props.
  apply (drag_inside_container props [(0, 0, 0); (5, 5, 5); (-3, 0, 1 # 10)]).
  - apply fits_decide. vm_compute. reflexivity.
  - apply inside_container_decide. vm_compute. reflexivity.
Defined.

(** ** Snapping back *)

Lemma getNewPos_free_returns (props : boxprops) (matrix : Vec3)
    (boxes : list SimBox) (PosArray pos : Vec3) (fuel : nat) :
  collision_free props boxes pos ->
  getNewPos_fuel (S fuel) props matrix boxes pos None = Some pos
  /\ getNewPos_fuel (S fuel) props matrix boxes PosArray (Some pos) = Some pos.
Proof.
  intros Hfree. simpl. unfold getNewPos_body.
  pose proof (intersecting_spec props boxes pos) as Hspec.
  destruct (intersecting props boxes pos) as [[b i] |]; [| split; reflexivity].
  destruct Hspec as (Hnth & Ho & Hov & _).
  exfalso. apply (Hfree b); [eapply nth_error_In; exact Hnth | exact Ho | exact Hov].
Qed.

Lemma collision_free_decide (props : boxprops) (boxes : list SimBox) (pos : Vec3) :
  forallb (fun box =>
             Z.eqb (batchdetailid box) (batchdetailid (data props))
             || negb (intersects props pos box)) boxes = true ->
  collision_free props boxes pos.
Proof.
  intros H box Hin Ho. rewrite forallb_forall in H. specialize (H box Hin).
  apply orb_true_iff in H. destruct H as [H | H].
  - apply Z.eqb_eq in H. contradiction.
  - apply negb_true_iff in H. apply intersects_false. exact H.
Qed.

(** X5. Snapping back. Whenever an activation finds an obstacle none of
    whose faces survives the guards, and the position held by the gizmo
    overlaps no other item of the list, the resolver returns exactly the
    position held by the gizmo. *)
Theorem getNewPos_snaps_back (props : boxprops) (matrix : Vec3)
    (boxes : list SimBox) (PosArray : Vec3) (newPosArray : option Vec3)
    (o : SimBox) (index fuel : nat) :
  let pos := match newPosArray with Some p => p | None => PosArray end in
  intersecting props boxes pos = Some (o, index) ->
  min_intersection props o PosArray pos = None ->
  collision_free props boxes matrix ->
  getNewPos_fuel (S (S fuel)) props matrix boxes PosArray newPosArray = Some matrix.
Proof.
  intros pos Hint Hmin Hfree.
  change (getNewPos_fuel (S (S fuel)) props matrix boxes PosArray newPosArray)
    with (match getNewPos_body props matrix boxes PosArray newPosArray with
          | Return p => Some p
          | Recurse boxes' pos' =>
              getNewPos_fuel (S fuel) props matrix boxes' PosArray (Some pos')
          end).
  unfold getNewPos_body. fold pos. rewrite Hint, Hmin, filter_i_remove_nth.
  apply (getNewPos_free_returns props matrix (remove_nth index boxes) PosArray matrix fuel).
  intros b Hb. apply Hfree. eapply remove_nth_incl. exact Hb.
Qed.

Lemma getNewPos_snaps_back_witness :
  let props := selectedProps walled (BProduct dragged9) in
  getNewPos_fuel 2 props (boxPos props) [BProduct wall1; BProduct dragged9]
    walledTarget (Some (0 # 8000, 1 # 10, 0))
  = Some (boxPos props).
Proof.
  intros props.
  apply (getNewPos_snaps_back props (boxPos props) [BProduct wall1; BProduct dragged9]
           walledTarget (Some (0 # 8000, 1 # 10, 0)) (BProduct wall1) 0 0).
  - vm_compute. reflexivity.
  - vm_compute. reflexivity.
  - apply collision_free_decide. vm_compute. reflexivity.
Defined.

(** ** The flat list after a patch *)

Lemma setItem_as_map (d : SimBatch) (item : SimBox) :
  Scene.setItem (Some d) item
  = Some (batch_with_details d (map (setItem_detail item) (details d))).
Proof. destruct item; reflexivity. Qed.

Lemma allItems_as_flat_map (d : SimBatch) :
  Scene.allItems (Some d) = Some (flat_map flat_of_detail (details d)).
Proof. reflexivity. Qed.

Lemma flat_map_map_pointwise {A B : Type} (f : A -> list B) (g : A -> A) (r : B -> B)
    (l : list A) :
  (forall a, In a l -> f (g a) = map r (f a)) ->
  flat_map f (map g l) = map r (flat_map f l).
Proof.
  induction l as [| a l IH]; intros H; simpl.
  - reflexivity.
  - rewrite map_app, (H a (or_introl eq_refl)), IH; [reflexivity |].
    intros b Hb. apply H. right. exact Hb.
Qed.

Lemma flat_setItem_detail (item : SimBox) (detail : Detail) :
  flat_of_detail (setItem_detail item detail) = map (replaceItem item) (flat_of_detail detail).
Proof.
  destruct item as [it | it]; destruct detail as [o | s]; simpl.
  - rewrite map_map. symmetry. apply map_ext. reflexivity.
  - destruct (Z.eqb (s_batchdetailid s) (s_batchdetailid it)); reflexivity.
  - rewrite !map_map. apply map_ext. intros p. simpl.
    destruct (Z.eqb (p_batchdetailid p) (p_batchdetailid it)); reflexivity.
  - reflexivity.
Qed.

Lemma allItems_setItem_map (d : SimBatch) (item : SimBox) :
  Scene.allItems (Scene.setItem (Some d) item)
  = Some (map (replaceItem item) (flat_map flat_of_detail (details d))).
Proof.
  rewrite setItem_as_map. unfold Scene.allItems. cbn [details batch_with_details].
  f_equal. apply flat_map_map_pointwise. intros a _. apply flat_setItem_detail.
Qed.

(** X7. Flattening after a patch is patching the flat list: the items the
    scene shows after [setItem] are the items it showed before, each entry
    of the item's kind and id replaced by the item and every other entry
    kept, in the same order. *)
Theorem allItems_setItem (data : option SimBatch) (item : SimBox) :
  Scene.allItems (Scene.setItem data item)
  = option_map (map (replaceItem item)) (Scene.allItems data).
Proof.
  destruct data as [d |]; [| reflexivity].
  rewrite allItems_setItem_map. reflexivity.
Qed.

Lemma replaceItem_keeps_id (item b : SimBox) :
  batchdetailid (replaceItem item b) = batchdetailid b
  /\ mastertype (replaceItem item b) = mastertype b.
Proof.
  destruct item as [it | it]; destruct b as [s | p]; simpl; try (split; reflexivity).
  - destruct (Z.eqb_spec (s_batchdetailid s) (s_batchdetailid it)) as [E | E];
      simpl; split; congruence.
  - destruct (Z.eqb_spec (p_batchdetailid p) (p_batchdetailid it)) as [E | E];
      simpl; split; congruence.
Qed.

Lemma replaceItem_hit (item b : SimBox) :
  mastertype b = mastertype item -> batchdetailid b = batchdetailid item ->
  replaceItem item b = item.
Proof.
  destruct item as [it | it]; destruct b as [s | p]; simpl; intros Hm Hid;
    try discriminate Hm; rewrite Hid, Z.eqb_refl; reflexivity.
Qed.

Lemma replaceItem_result (item b : SimBox) :
  mastertype (replaceItem item b) = mastertype item ->
  batchdetailid (replaceItem item b) = batchdetailid item ->
  replaceItem item b = item.
Proof.
  destruct (replaceItem_keeps_id item b) as [Hid Hm]. rewrite Hid, Hm.
  apply replaceItem_hit.
Qed.

(** X8. Reading back after a patch. After [setItem], every entry of the
    flat list that has the item's kind and id is the item itself; the item
    is in the list when an entry of its kind and id was there before; and
    the list shows the same ids and kinds, entry by entry, as before. *)
Theorem setItem_read_back (d : SimBatch) (item : SimBox) (items items' : list SimBox) :
  Scene.allItems (Some d) = Some items ->
  Scene.allItems (Scene.setItem (Some d) item) = Some items' ->
  (forall b, In b items' -> mastertype b = mastertype item ->
             batchdetailid b = batchdetailid item -> b = item)
  /\ ((exists b, In b items /\ mastertype b = mastertype item
                 /\ batchdetailid b = batchdetailid item) ->
      In item items')
  /\ map batchdetailid items' = map batchdetailid items
  /\ map mastertype items' = map mastertype items.
Proof.
  intros Hitems Hitems'.
  rewrite allItems_as_flat_map in Hitems. apply some_eq in Hitems.
  rewrite allItems_setItem_map in Hitems'. apply some_eq in Hitems'.
  rewrite Hitems in Hitems'. subst items'.
  split; [| split; [| split]].
  - intros b Hb Hm Hid. apply in_map_iff in Hb. destruct Hb as (b0 & <- & _).
    apply replaceItem_result; assumption.
  - intros (b & Hb & Hm & Hid). apply in_map_iff. exists b.
    split; [apply replaceItem_hit; assumption | exact Hb].
  - rewrite map_map. apply map_ext. intros b. apply replaceItem_keeps_id.
  - rewrite map_map. apply map_ext. intros b. apply replaceItem_keeps_id.
Qed.

Lemma setItem_read_back_witness :
  let p5 := sampleBox 5 30 20 10 (0, 0, 0) R0 in
  let p6 := sampleBox 6 30 20 10 (30, 0, 0) R0 in
  let p6' := sampleBox 6 30 20 10 (60, 0, 0) R0 in
  let pal := samplePallet 1 100 100 15 50 (0, 0, 0) R0 [] in
  let d := sampleBatch 1000 [DPallet pal; DOrder (mkSimOrder 3 "bare" "3" [p5; p6])] in
  let items' := [BPallet pal; BProduct p5; BProduct p6'] in
  (forall b, In b items' -> mastertype b = product ->
             batchdetailid b = 6%Z -> b = BProduct p6')
  /\ ((exists b, In b [BPallet pal; BProduct p5; BProduct p6] /\ mastertype b = product
                 /\ batchdetailid b = 6%Z) ->
      In (BProduct p6') items')
  /\ map batchdetailid items' = [1; 5; 6]%Z
  /\ map mastertype items' = [sim_batch; product; product].
Proof.
  intros p5 p6 p6' pal d items'.
  apply (setItem_read_back d (BProduct p6') [BPallet pal; BProduct p5; BProduct p6] items');
    reflexivity.
Defined.

(** ** Patches compose *)

Lemma setItem_detail_last_wins (a b : SimBox) (detail : Detail) :
  mastertype a = mastertype b -> batchdetailid a = batchdetailid b ->
  setItem_detail b (setItem_detail a detail) = setItem_detail b detail.
Proof.
  destruct a as [a | a]; destruct b as [b | b]; simpl; intros Hm Hid;
    try discriminate Hm; destruct detail as [o | s]; simpl; try reflexivity.
  - destruct (Z.eqb_spec (s_batchdetailid s) (s_batchdetailid a)) as [E | E]; simpl.
    + rewrite Hid, Z.eqb_refl. rewrite E, Hid, Z.eqb_refl. reflexivity.
    + reflexivity.
  - f_equal. unfold order_with_products. simpl. f_equal.
    rewrite map_map. apply map_ext. intros p.
    destruct (Z.eqb_spec (p_batchdetailid p) (p_batchdetailid a)) as [E | E]; simpl.
    + rewrite Hid, Z.eqb_refl. rewrite E, Hid, Z.eqb_refl. reflexivity.
    + reflexivity.
Qed.

Lemma setItem_detail_commute (a b : SimBox) (detail : Detail) :
  mastertype a <> mastertype b \/ batchdetailid a <> batchdetailid b ->
  setItem_detail b (setItem_detail a detail) = setItem_detail a (setItem_detail b detail).
Proof.
  intros Hdiff.
  destruct a as [a | a]; destruct b as [b | b]; simpl in Hdiff.
  - assert (Hne : s_batchdetailid a <> s_batchdetailid b)
      by (destruct Hdiff as [H | H]; [exfalso; apply H; reflexivity | exact H]).
    destruct detail as [o | s]; simpl; [reflexivity |].
    destruct (Z.eqb_spec (s_batchdetailid s) (s_batchdetailid a)) as [Ea | Ea];
      destruct (Z.eqb_spec (s_batchdetailid s) (s_batchdetailid b)) as [Eb | Eb]; simpl.
    + congruence.
    + destruct (Z.eqb_spec (s_batchdetailid a) (s_batchdetailid b)) as [E | E];
        [contradiction |]. simpl.
      destruct (Z.eqb_spec (s_batchdetailid s) (s_batchdetailid a)); [reflexivity | contradiction].
    + destruct (Z.eqb_spec (s_batchdetailid b) (s_batchdetailid a)) as [E | E];
        [congruence |]. simpl.
      destruct (Z.eqb_spec (s_batchdetailid s) (s_batchdetailid b)); [reflexivity | contradiction].
    + destruct (Z.eqb_spec (s_batchdetailid s) (s_batchdetailid a)); [contradiction |].
      destruct (Z.eqb_spec (s_batchdetailid s) (s_batchdetailid b)); [contradiction |].
      reflexivity.
  - destruct detail as [o | s]; simpl; [reflexivity |].
    destruct (Z.eqb (s_batchdetailid s) (s_batchdetailid a)); reflexivity.
  - destruct detail as [o | s]; simpl; [reflexivity |].
    destruct (Z.eqb (s_batchdetailid s) (s_batchdetailid b)); reflexivity.
  - assert (Hne : p_batchdetailid a <> p_batchdetailid b)
      by (destruct Hdiff as [H | H]; [exfalso; apply H; reflexivity | exact H]).
    destruct detail as [o | s]; simpl; [| reflexivity].
    f_equal. unfold order_with_products. simpl. f_equal.
    rewrite !map_map. apply map_ext. intros p.
    destruct (Z.eqb_spec (p_batchdetailid p) (p_batchdetailid a)) as [Ea | Ea];
      destruct (Z.eqb_spec (p_batchdetailid p) (p_batchdetailid b)) as [Eb | Eb]; simpl.
    + congruence.
    + destruct (Z.eqb_spec (p_batchdetailid a) (p_batchdetailid b)) as [E | E];
        [contradiction |]. simpl.
      destruct (Z.eqb_spec (p_batchdetailid p) (p_batchdetailid a)); [reflexivity | contradiction].
    + destruct (Z.eqb_spec (p_batchdetailid b) (p_batchdetailid a)) as [E | E];
        [congruence |]. simpl.
      destruct (Z.eqb_spec (p_batchdetailid p) (p_batchdetailid b)); [reflexivity | contradiction].
    + destruct (Z.eqb_spec (p_batchdetailid p) (p_batchdetailid a)); [contradiction |].
      destruct (Z.eqb_spec (p_batchdetailid p) (p_batchdetailid b)); [contradiction |].
      reflexivity.
Qed.

Lemma setItem_twice (d : SimBatch) (a b : SimBox) :
  match Scene.setItem (Some d) a with
  | Some d' => Scene.setItem (Some d') b
  | None => None
  end
  = Some (batch_with_details d
            (map (fun detail => setItem_detail b (setItem_detail a detail)) (details d))).
Proof.
  rewrite setItem_as_map, setItem_as_map. cbn [details batch_with_details].
  rewrite map_map. destruct d; reflexivity.
Qed.

(** X9. The last patch wins: patching with an item and then with another
    item of the same kind and id gives the batch that the second patch
    alone gives; in particular patching twice with one item is patching
    once. *)
Theorem setItem_last_wins (data : option SimBatch) (a b : SimBox) :
  mastertype a = mastertype b ->
  batchdetailid a = batchdetailid b ->
  Scene.setItem (Scene.setItem data a) b = Scene.setItem data b
  /\ Scene.setItem (Scene.setItem data b) b = Scene.setItem data b.
Proof.
  intros Hm Hid. destruct data as [d |]; [| split; reflexivity].
  split.
  - pose proof (setItem_twice d a b) as H. rewrite setItem_as_map in H at 1.
    rewrite setItem_as_map at 1. rewrite H. rewrite setItem_as_map. f_equal. f_equal.
    apply map_ext. intros detail. apply setItem_detail_last_wins; assumption.
  - pose proof (setItem_twice d b b) as H. rewrite setItem_as_map in H at 1.
    rewrite setItem_as_map at 1. rewrite H. rewrite setItem_as_map. f_equal. f_equal.
    apply map_ext. intros detail. apply setItem_detail_last_wins; reflexivity.
Qed.

(** X10. Patches of different items commute: for two items that differ in
    kind or in id, the order in which they are patched into the batch does
    not matter. *)
Theorem setItem_commute (data : option SimBatch) (a b : SimBox) :
  mastertype a <> mastertype b \/ batchdetailid a <> batchdetailid b ->
  Scene.setItem (Scene.setItem data a) b = Scene.setItem (Scene.setItem data b) a.
Proof.
  intros Hdiff. destruct data as [d |]; [| reflexivity].
  pose proof (setItem_twice d a b) as Hab. rewrite setItem_as_map in Hab at 1.
  pose proof (setItem_twice d b a) as Hba. rewrite setItem_as_map in Hba at 1.
  rewrite (setItem_as_map d a) at 1. rewrite Hab.
  rewrite (setItem_as_map d b) at 1. rewrite Hba.
  f_equal. f_equal. apply map_ext. intros detail.
  apply setItem_detail_commute. exact Hdiff.
Qed.

Lemma setItem_last_wins_witness :
  let p5 := sampleBox 5 30 20 10 (0, 0, 0) R0 in
  let p6 := sampleBox 6 30 20 10 (30, 0, 0) R0 in
  let a := BProduct (sampleBox 6 30 20 10 (60, 0, 0) R0) in
  let b := BProduct (sampleBox 6 30 20 10 (90, 0, 0) R1) in
  let data := Some (sampleBatch 1000 [DOrder (mkSimOrder 3 "bare" "3" [p5; p6])]) in
  Scene.setItem (Scene.setItem data a) b = Scene.setItem data b
  /\ Scene.setItem (Scene.setItem data b) b = Scene.setItem data b.
Proof.
  intros p5 p6 a b data.
  apply (setItem_last_wins data a b); reflexivity.
Defined.

Lemma setItem_commute_witness :
  let p5 := sampleBox 5 30 20 10 (0, 0, 0) R0 in
  let p6 := sampleBox 6 30 20 10 (30, 0, 0) R0 in
  let pal := samplePallet 6 100 100 15 50 (0, 0, 0) R0 [] in
  let a := BPallet (samplePallet 6 100 100 15 50 (10, 0, 0) R0 []) in
  let b := BProduct (sampleBox 6 30 20 10 (90, 0, 0) R1) in
  let data := Some (sampleBatch 1000 [DPallet pal; DOrder (mkSimOrder 3 "bare" "3" [p5; p6])]) in
  Scene.setItem (Scene.setItem data a) b = Scene.setItem (Scene.setItem data b) a.
Proof.
  intros p5 p6 pal a b data.
  apply (setItem_commute data a b). left. discriminate.
Defined.

(** ** Rotation clicks on the batch *)

Lemma product_rotation_restore (p : SimProduct) (r : Rotation) :
  product_with_rotation (product_with_rotation p r) (p_rotation p) = p.
Proof. destruct p; reflexivity. Qed.

Lemma pallet_rotation_restore (s : SimPallet) (r : Rotation) :
  pallet_with_rotation (pallet_with_rotation s r) (s_rotation s) = s.
Proof. destruct s; reflexivity. Qed.

Lemma rotationTable_involutive (btn : SimCanvas.Button) (r : Rotation) :
  rotationTable btn (rotationTable btn r) = r.
Proof. destruct btn; destruct r; reflexivity. Qed.

Lemma map_map_fixed {A : Type} (f : A -> A) (l : list A) :
  (forall a, f (f a) = a) -> map f (map f l) = l.
Proof.
  intros H. rewrite map_map. rewrite <- (map_id l) at 2. apply map_ext. exact H.
Qed.

Lemma rotate_products_twice (btn : SimCanvas.Button) (id : Z) (ps : list SimProduct) :
  map (fun p => if negb (Z.eqb (p_batchdetailid p) id) then p
                else product_with_rotation p (rotationTable btn (p_rotation p)))
      (map (fun p => if negb (Z.eqb (p_batchdetailid p) id) then p
                     else product_with_rotation p (rotationTable btn (p_rotation p)))
           ps)
  = ps.
Proof.
  apply map_map_fixed. intros p.
  destruct (Z.eqb (p_batchdetailid p) id) eqn:E; simpl.
  - change (p_batchdetailid (product_with_rotation p (rotationTable btn (p_rotation p))))
      with (p_batchdetailid p).
    rewrite E. simpl.
    change (p_rotation (product_with_rotation p (rotationTable btn (p_rotation p))))
      with (rotationTable btn (p_rotation p)).
    rewrite rotationTable_involutive. apply product_rotation_restore.
  - rewrite E. reflexivity.
Qed.

(** X11. A second click undoes the first: clicking the same rotation
    button twice, with the same item selected, gives back the batch as it
    was before the first click. *)
Theorem onClick_twice (btn : SimCanvas.Button) (d : SimBatch) (selectedItem : option SimBox) :
  SimCanvas.onClick btn (SimCanvas.onClick btn d selectedItem) selectedItem = d.
Proof.
  destruct selectedItem as [sel |]; [| destruct btn; reflexivity].
  destruct btn; unfold SimCanvas.onClick, SimCanvas.onClickHorizontal,
    SimCanvas.onClickVertical; cbn [details batch_with_details].
  - transitivity (batch_with_details d (details d)); [| destruct d; reflexivity].
    unfold batch_with_details at 1 3. cbn [batchid batchname batchtype b_length b_width
      b_height b_loadlength b_loadwidth b_loadheight b_color]. f_equal.
    apply map_map_fixed. intros detail.
    destruct (mastertype sel); destruct detail as [o | s]; try reflexivity.
    + f_equal. cbn [products order_with_products orderid ordername ordernumber].
      rewrite (rotate_products_twice SimCanvas.RotateHorizontal). destruct o; reflexivity.
    + destruct (Z.eqb (s_batchdetailid s) (batchdetailid sel)) eqn:E; simpl.
      * change (s_batchdetailid (pallet_with_rotation s (SimCanvas.rotH (s_rotation s))))
          with (s_batchdetailid s).
        rewrite E. simpl. f_equal.
        change (s_rotation (pallet_with_rotation s (SimCanvas.rotH (s_rotation s))))
          with (SimCanvas.rotH (s_rotation s)).
        rewrite (rotationTable_involutive SimCanvas.RotateHorizontal).
        apply pallet_rotation_restore.
      * rewrite E. reflexivity.
  - transitivity (batch_with_details d (details d)); [| destruct d; reflexivity].
    unfold batch_with_details at 1 3. cbn [batchid batchname batchtype b_length b_width
      b_height b_loadlength b_loadwidth b_loadheight b_color]. f_equal.
    apply map_map_fixed. intros detail.
    destruct detail as [o | s]; try reflexivity.
    f_equal. cbn [products order_with_products orderid ordername ordernumber].
    rewrite (rotate_products_twice SimCanvas.RotateVertical). destruct o; reflexivity.
Qed.

(** X12. What the two rotations do to the extents of an item: the
    horizontal rotation exchanges the extents along x and z and keeps the
    vertical one; the vertical rotation exchanges the extents along y and z
    and keeps the one along x. *)
Theorem rotation_swaps_extents (b : SimBox) :
  getRotDim (box_with_rotation b (SimCanvas.rotH (rotation b)))
  = (vget (getRotDim b) 2, vget (getRotDim b) 1, vget (getRotDim b) 0)
  /\ getRotDim (box_with_rotation b (SimCanvas.rotV (rotation b)))
     = (vget (getRotDim b) 0, vget (getRotDim b) 2, vget (getRotDim b) 1).
Proof.
  destruct b as [s | p].
  - destruct s as [? ? ? ? ? ? ? ? ? ? ? ? r ?]. destruct r; split; reflexivity.
  - destruct p as [? ? ? ? ? ? ? ? ? ? ? ? ? ? r ? ?]. destruct r; split; reflexivity.
Qed.

(** X13. Every orientation can be reached: from any rotation code, at most
    three clicks on the two rotation buttons lead to any other one. *)
Theorem rotations_reachable (r r' : Rotation) :
  exists clicks : list SimCanvas.Button,
    (length clicks <= 3)%nat /\ applyClicks clicks r = r'.
Proof.
  pose (H := SimCanvas.RotateHorizontal). pose (V := SimCanvas.RotateVertical).
  destruct r; destruct r';
    first [ exists []; split; [simpl; lia | reflexivity]
          | exists [H]; split; [simpl; lia | reflexivity]
          | exists [V]; split; [simpl; lia | reflexivity]
          | exists [H; V]; split; [simpl; lia | reflexivity]
          | exists [V; H]; split; [simpl; lia | reflexivity]
          | exists [H; V; H]; split; [simpl; lia | reflexivity]
          | exists [V; H; V]; split; [simpl; lia | reflexivity] ].
Qed.

(** ** The flat list after a rotation click *)

Lemma flat_rotate_products (btn : SimCanvas.Button) (sel : SimBox) (ps : list SimProduct) :
  (btn = SimCanvas.RotateVertical \/ mastertype sel = product) ->
  map BProduct
      (map (fun p => if negb (Z.eqb (p_batchdetailid p) (batchdetailid sel)) then p
                     else product_with_rotation p (rotationTable btn (p_rotation p)))
           ps)
  = map (rotateItem btn sel) (map BProduct ps).
Proof.
  intros Hhit. rewrite !map_map. apply map_ext. intros p.
  unfold rotateItem. cbn [batchdetailid rotation box_with_rotation].
  assert (Hh : match btn, mastertype sel, BProduct p with
               | SimCanvas.RotateHorizontal, sim_batch, BPallet _ => true
               | SimCanvas.RotateHorizontal, product, BProduct _ => true
               | SimCanvas.RotateVertical, _, BProduct _ => true
               | _, _, _ => false
               end = true).
  { destruct Hhit as [-> | ->]; [destruct (mastertype sel); reflexivity |].
    destruct btn; reflexivity. }
  rewrite Hh. cbn [andb].
  destruct (Z.eqb (p_batchdetailid p) (batchdetailid sel)); reflexivity.
Qed.

Lemma flat_products_untouched (sel : SimBox) (ps : list SimProduct) :
  mastertype sel = sim_batch ->
  map BProduct ps = map (rotateItem SimCanvas.RotateHorizontal sel) (map BProduct ps).
Proof.
  intros Hm. rewrite map_map. apply map_ext. intros p.
  unfold rotateItem. rewrite Hm. reflexivity.
Qed.

(** X14. Flattening after a rotation click is rotating in the flat list:
    the scene shows the same entries in the same order, the entries hit by
    the click (the selected id, among the items the button acts on) with
    their rotation mapped through the button's table; no entry changes its
    id, kind, stored position or nominal dimensions. *)
Theorem allItems_onClick (btn : SimCanvas.Button) (d : SimBatch) (sel : SimBox) :
  Scene.allItems (Some (SimCanvas.onClick btn d (Some sel)))
  = option_map (map (rotateItem btn sel)) (Scene.allItems (Some d))
  /\ (forall b, placement (rotateItem btn sel b) = placement b).
Proof.
  split.
  - unfold Scene.allItems, option_map. f_equal.
    destruct btn; unfold SimCanvas.onClick, SimCanvas.onClickHorizontal,
      SimCanvas.onClickVertical; cbn [details batch_with_details];
      apply flat_map_map_pointwise; intros detail _.
    + destruct (mastertype sel) eqn:Hm; destruct detail as [o | s];
        cbn [products order_with_products].
      * apply (flat_rotate_products SimCanvas.RotateHorizontal sel). right. exact Hm.
      * unfold rotateItem. rewrite Hm. reflexivity.
      * apply flat_products_untouched. exact Hm.
      * unfold rotateItem. rewrite Hm. cbn [map batchdetailid andb rotation box_with_rotation].
        destruct (Z.eqb (s_batchdetailid s) (batchdetailid sel)); reflexivity.
    + destruct detail as [o | s]; cbn [products order_with_products].
      * apply (flat_rotate_products SimCanvas.RotateVertical sel). left. reflexivity.
      * unfold rotateItem. destruct (mastertype sel); reflexivity.
  - intros b. unfold rotateItem.
    destruct (_ && _); [| reflexivity].
    destruct b as [s | p]; reflexivity.
Qed.

(** ** Dropping the item *)

Lemma getRotDim_box_with_position (item : SimBox) (v : Vec3) :
  getRotDim (box_with_position item v) = getRotDim item.
Proof. destruct item; reflexivity. Qed.

(** X15. Dropping stores what is shown. For a positive render scale, the
    item handed to [setItem] when the gizmo is released differs from the
    selected item in its position only: id, kind, rotation and nominal
    dimensions are kept; and its stored position is the one that, computed
    in exact arithmetic, renders where the gizmo was (on doubles the two
    conversions meet up to rounding only). *)
Theorem onDragEnd_round_trip (props : boxprops) (matrix : Vec3) :
  0 < renderScale props ->
  veq (boxPos (props_with_data props (onDragEnd props matrix))) matrix
  /\ veq (box_pos props (onDragEnd props matrix)) matrix
  /\ batchdetailid (onDragEnd props matrix) = batchdetailid (data props)
  /\ mastertype (onDragEnd props matrix) = mastertype (data props)
  /\ rotation (onDragEnd props matrix) = rotation (data props)
  /\ getRotDim (onDragEnd props matrix) = getRotDim (data props).
Proof.
  intros Hs. assert (Hne : ~ renderScale props == 0) by lra.
  assert (Hpos : veq (box_pos props (onDragEnd props matrix)) matrix).
  { unfold box_pos, onDragEnd. rewrite getRotDim_box_with_position, position_box_with_position.
    unfold readjustScale, adjustScale, readjustPos, adjustPos, swapYZ, veq, vmap, vget.
    destruct matrix as [[x y] z].
    destruct (getRotDim (data props)) as [[dx dy] dz].
    destruct (contSize props) as [[ca cb] cc].
    repeat split; field; assumption. }
  split; [exact Hpos |]. split; [exact Hpos |].
  unfold onDragEnd. repeat split; try (destruct (data props); reflexivity).
Qed.

Lemma onDragEnd_round_trip_witness :
  let props := selectedProps twoObstacles (BProduct dragged3) in
  veq (boxPos (props_with_data props (onDragEnd props (0, 1 # 10, 1 # 5)))) (0, 1 # 10, 1 # 5)
  /\ veq (box_pos props (onDragEnd props (0, 1 # 10, 1 # 5))) (0, 1 # 10, 1 # 5)
  /\ batchdetailid (onDragEnd props (0, 1 # 10, 1 # 5)) = 3%Z
  /\ mastertype (onDragEnd props (0, 1 # 10, 1 # 5)) = product
  /\ rotation (onDragEnd props (0, 1 # 10, 1 # 5)) = R0
  /\ getRotDim (onDragEnd props (0, 1 # 10, 1 # 5)) = (2, 2 + 0, 2).
Proof.
  intros props. apply (onDragEnd_round_trip props (0, 1 # 10, 1 # 5)). reflexivity.
Defined.

(** ** The layer slider *)



(** ** The render scale *)

Lemma Qdiv_1_r (x : Q) : x / 1 == x.
Proof. field. Qed.

(** X17. The render scale of a batch is at least each of its own and load
    dimensions, and both scenes use the same one; when it is positive the
    load volume of the container measures at most 1 along each axis in
    render units. *)
Theorem batchRenderScale_bounds (d : SimBatch) (items : list SimBox)
    (selectedItem : option SimBox) (edit : bool) (detail : SimBox) :
  let s := SimCanvas.batchRenderScale (Some d) in
  let props := Scene.moveModelProps d items selectedItem edit s detail in
  (b_length d <= s /\ b_width d <= s /\ b_height d <= s
   /\ b_loadlength d <= s /\ b_loadwidth d <= s /\ b_loadheight d <= s)
  /\ SceneStatic.renderScale d = s
  /\ (0 < s -> forall k, (k < 3)%nat -> vget (adjustedContSize props) k <= 1).
Proof.
  intros s props.
  assert (Hdims : b_length d <= s /\ b_width d <= s /\ b_height d <= s
                  /\ b_loadlength d <= s /\ b_loadwidth d <= s /\ b_loadheight d <= s).
  { unfold s, SimCanvas.batchRenderScale. rewrite Qdiv_1_r.
    set (m5 := Qmax (b_loadlength d) (b_loadwidth d)).
    set (m4 := Qmax (b_loadheight d) m5).
    set (m3 := Qmax (b_height d) m4).
    set (m2 := Qmax (b_width d) m3).
    pose proof (Q.le_max_l (b_loadlength d) (b_loadwidth d)).
    pose proof (Q.le_max_r (b_loadlength d) (b_loadwidth d)).
    pose proof (Q.le_max_l (b_loadheight d) m5).
    pose proof (Q.le_max_r (b_loadheight d) m5).
    pose proof (Q.le_max_l (b_height d) m4).
    pose proof (Q.le_max_r (b_height d) m4).
    pose proof (Q.le_max_l (b_width d) m3).
    pose proof (Q.le_max_r (b_width d) m3).
    pose proof (Q.le_max_l (b_length d) m2).
    pose proof (Q.le_max_r (b_length d) m2).
    fold m5 in H, H0. fold m4 in H1, H2. fold m3 in H3, H4. fold m2 in H5, H6.
    clearbody m2 m3 m4 m5. repeat split; lra. }
  split; [exact Hdims |]. split; [reflexivity |].
  intros Hs k Hk.
  destruct Hdims as (_ & _ & _ & Hl & Hw & Hh).
  unfold adjustedContSize, adjustScale, props. cbn [contSize renderScale Scene.moveModelProps vmap].
  fold s.
  destruct k as [| [| [| k]]]; [| | | lia]; cbn [vget];
    apply Qle_shift_div_r; try exact Hs; lra.
Qed.

Lemma batchRenderScale_bounds_witness :
  let s := SimCanvas.batchRenderScale (Some twoObstacles) in
  let props := Scene.moveModelProps twoObstacles [] None true s (BProduct dragged3) in
  vget (adjustedContSize props) 0 <= 1
  /\ vget (adjustedContSize props) 1 <= 1
  /\ vget (adjustedContSize props) 2 <= 1.
Proof.
  intros s props.
  destruct (batchRenderScale_bounds twoObstacles [] None true (BProduct dragged3))
    as (_ & _ & H).
  assert (Hs : 0 < s) by reflexivity.
  split; [apply (H Hs 0%nat); lia | split; [apply (H Hs 1%nat); lia | apply (H Hs 2%nat); lia]].
Defined.

(** ** The two scenes *)

(** X18. The scene of the printed report and the interactive scene put
    every item of the flat list at the same point; a box standing on a
    sub-pallet they put at the same point exactly when the second and the
    third stored coordinate of the box are equal (one scene reads the
    height from the third coordinate, the other from the second). *)
Theorem static_scene_agreement (d : SimBatch) (items : list SimBox)
    (selectedItem : option SimBox) (edit : bool) :
  ~ SceneStatic.renderScale d == 0 ->
  (forall detail,
      SceneStatic.boxPos d detail
      = boxPos (Scene.moveModelProps d items selectedItem edit
                  (SimCanvas.batchRenderScale (Some d)) detail))
  /\ (forall (pal : SimPallet) (p : SimProduct),
         veq (SceneStatic.nestedBoxPosition d pal p)
             (SceneRender.nestedBoxPosition pal p (SimCanvas.batchRenderScale (Some d)))
         <-> vget (p_position p) 1 == vget (p_position p) 2).
Proof.
  intros Hne. split; [reflexivity |].
  intros pal p.
  unfold SceneStatic.nestedBoxPosition, SceneRender.nestedBoxPosition, veq.
  change (SimCanvas.batchRenderScale (Some d)) with (SceneStatic.renderScale d).
  set (s := SceneStatic.renderScale d) in *.
  set (p0 := vget (p_position p) 0). set (p1 := vget (p_position p) 1).
  set (p2 := vget (p_position p) 2).
  split.
  - intros (_ & Hy & _).
    assert (E : (p1 + p_height p / 2) / s * s == (p2 + p_height p / 2) / s * s)
      by (rewrite Hy; reflexivity).
    assert (Hc : forall a, a / s * s == a) by (intros a; field; exact Hne).
    rewrite !Hc in E. lra_halves.
  - intros E. split; [reflexivity |]. split; rewrite E; reflexivity.
Qed.

Lemma static_scene_agreement_witness :
  let pal := samplePallet 4 4 4 1 3 (0, 0, 0) R0 [] in
  let p := sampleBox 7 2 2 2 (1, 1, 1) R0 in
  veq (SceneStatic.nestedBoxPosition twoObstacles pal p)
      (SceneRender.nestedBoxPosition pal p (SimCanvas.batchRenderScale (Some twoObstacles)))
  <-> vget (p_position p) 1 == vget (p_position p) 2.
Proof.
  intros pal p.
  destruct (static_scene_agreement twoObstacles [] None true) as [_ H].
  - intros E. vm_compute in E. discriminate E.
  - exact (H pal p).
Defined.

(** ** The order pagers *)

Lemma ceilDiv_1 (n : nat) : DetailSection.ceilDiv n 1 = n.
Proof. unfold DetailSection.ceilDiv. simpl. rewrite Nat.add_0_r. apply Nat.div_1_r. Qed.

Lemma firstn_1_skipn {A : Type} (l : list A) (n : nat) :
  firstn 1 (skipn n l) = match nth_error l n with Some a => [a] | None => [] end.
Proof.
  revert n. induction l as [| x l IH]; intros n.
  - destruct n; reflexivity.
  - destruct n as [| n]; [reflexivity |]. simpl. apply IH.
Qed.

(** X19. The order pager of the container page shows one order per page:
    there are as many pages as orders; page p, for p between 1 and the
    number of orders, shows exactly the p-th order, and any other page
    shows nothing; the two buttons never leave the range from 1 to the
    number of pages. *)
Theorem DetailSection_pager (details : list DetailSection.OrderDetail) (p : nat) :
  DetailSection.totalOrderPages details = length details
  /\ DetailSection.paginatedOrders details p
     = match p with
       | O => []
       | S i => match nth_error details i with Some o => [o] | None => [] end
       end
  /\ (details <> [] -> (1 <= p <= length details)%nat ->
      (1 <= DetailSection.prevPage p <= length details)%nat
      /\ (1 <= DetailSection.nextPage details p <= length details)%nat
      /\ (DetailSection.prevPage p = p - 1 \/ p = 1)%nat
      /\ (DetailSection.nextPage details p = p + 1 \/ p = length details)%nat).
Proof.
  assert (Ht : DetailSection.totalOrderPages details = length details)
    by apply ceilDiv_1.
  split; [exact Ht |]. split.
  - unfold DetailSection.paginatedOrders, DetailSection.slice, DetailSection.ordersPerPage.
    rewrite !Nat.mul_1_r. destruct p as [| i]; [reflexivity |].
    replace (S i - (S i - 1))%nat with 1%nat by lia.
    replace (S i - 1)%nat with i by lia.
    apply firstn_1_skipn.
  - intros _ Hp. unfold DetailSection.prevPage, DetailSection.nextPage. rewrite Ht. lia.
Qed.

Lemma DetailSection_pager_witness :
  let o1 := DetailSection.mkOrderDetail "A" [] in
  let o2 := DetailSection.mkOrderDetail "B" [] in
  (1 <= DetailSection.prevPage 2 <= 2)%nat
  /\ (1 <= DetailSection.nextPage [o1; o2] 2 <= 2)%nat
  /\ (DetailSection.prevPage 2 = 2 - 1 \/ 2 = 1)%nat
  /\ (DetailSection.nextPage [o1; o2] 2 = 2 + 1 \/ 2 = 2)%nat.
Proof.
  intros o1 o2.
  destruct (DetailSection_pager [o1; o2] 2) as (_ & _ & H).
  apply H; [discriminate | simpl; lia].
Defined.

Lemma totalOrders_from (details : list DetailPCSection.SimBatchDetail) (acc : nat) :
  fold_left (fun acc batch =>
               (acc + match DetailPCSection.orders batch with
                      | Some os => length os
                      | None => 0
                      end)%nat)
            details acc
  = (acc + length (DetailPCSection.orderRows details))%nat.
Proof.
  revert acc. induction details as [| batch details IH]; intros acc; simpl.
  - lia.
  - rewrite IH. unfold DetailPCSection.orderRows. simpl. rewrite length_app.
    destruct (DetailPCSection.orders batch) as [os |]; simpl.
    + rewrite length_map. fold (DetailPCSection.orderRows details). lia.
    + fold (DetailPCSection.orderRows details). lia.
Qed.

Lemma innerLoop_spec (p : nat) (batch : DetailPCSection.SimBatchDetail)
    (os : list DetailPCSection.OrderDetail) :
  forall c, (c < p)%nat ->
    DetailPCSection.innerLoop p batch os c []
    = match nth_error os (p - 1 - c) with
      | Some o => (p, [(batch, o)])
      | None => ((c + length os)%nat, [])
      end.
Proof.
  induction os as [| order os IH]; intros c Hc.
  - simpl. destruct (p - 1 - c)%nat; rewrite Nat.add_0_r; reflexivity.
  - cbn [DetailPCSection.innerLoop]. unfold DetailPCSection.ordersPerPage.
    rewrite !Nat.mul_1_r.
    destruct (Nat.eq_dec (S c) p) as [E | E].
    + assert (H1 : (p - 1 <? S c)%nat = true) by (apply Nat.ltb_lt; lia).
      assert (H2 : (S c <=? p)%nat = true) by (apply Nat.leb_le; lia).
      rewrite H1, H2. simpl.
      replace (p - 1 - c)%nat with 0%nat by lia. simpl. rewrite E. reflexivity.
    + assert (H1 : (p - 1 <? S c)%nat = false) by (apply Nat.ltb_ge; lia).
      rewrite H1. simpl. rewrite IH by lia.
      replace (p - 1 - c)%nat with (S (p - 1 - S c)) by lia. simpl.
      destruct (nth_error os (p - 1 - S c)); [reflexivity |].
      f_equal. lia.
Qed.

Lemma outerLoop_spec (p : nat) (details : list DetailPCSection.SimBatchDetail) :
  forall c, (c < p)%nat ->
    snd (DetailPCSection.outerLoop p details c [])
    = firstn 1 (skipn (p - 1 - c) (DetailPCSection.orderRows details)).
Proof.
  induction details as [| batch details IH]; intros c Hc.
  - simpl. destruct (p - 1 - c)%nat; reflexivity.
  - cbn [DetailPCSection.outerLoop]. unfold DetailPCSection.orderRows. cbn [flat_map].
    fold (DetailPCSection.orderRows details).
    destruct (DetailPCSection.orders batch) as [os |].
    + rewrite (innerLoop_spec p batch os c Hc).
      destruct (nth_error os (p - 1 - c)) as [o |] eqn:En.
      * cbn [snd length Nat.leb DetailPCSection.ordersPerPage]. rewrite firstn_1_skipn.
        rewrite nth_error_app1 by (rewrite length_map; apply nth_error_Some; congruence).
        rewrite nth_error_map, En. reflexivity.
      * cbn [snd length Nat.leb DetailPCSection.ordersPerPage]. apply nth_error_None in En.
        rewrite IH by lia. rewrite skipn_app, length_map.
        rewrite (skipn_all2 (map _ os)) by (rewrite length_map; lia).
        cbn [app]. replace (p - 1 - (c + length os))%nat with (p - 1 - c - length os)%nat by lia.
        reflexivity.
    + cbn [snd length Nat.leb DetailPCSection.ordersPerPage app]. apply IH. exact Hc.
Qed.

(** X20. The order pager of the pallet-on-container page shows one order
    per page: page p, for p at least 1, shows exactly the p-th order of the
    batch, counting through the orders of the details in turn, together
    with the detail it belongs to, and nothing when there are fewer orders;
    the page count is the number of orders, or 1 when there is none, and
    the two buttons never leave the range from 1 to the page count. *)
Theorem DetailPCSection_pager (details : list DetailPCSection.SimBatchDetail) (p : nat) :
  DetailPCSection.totalOrders details = length (DetailPCSection.orderRows details)
  /\ DetailPCSection.totalPages details
     = Nat.max 1 (length (DetailPCSection.orderRows details))
  /\ ((1 <= p)%nat ->
      DetailPCSection.paginatedOrders details p
      = match nth_error (DetailPCSection.orderRows details) (p - 1) with
        | Some row => [row]
        | None => []
        end)
  /\ ((1 <= p <= DetailPCSection.totalPages details)%nat ->
      (1 <= DetailPCSection.prevPage p <= DetailPCSection.totalPages details)%nat
      /\ (1 <= DetailPCSection.nextPage details p <= DetailPCSection.totalPages details)%nat).
Proof.
  assert (Ht : DetailPCSection.totalOrders details
               = length (DetailPCSection.orderRows details)).
  { unfold DetailPCSection.totalOrders. rewrite totalOrders_from. reflexivity. }
  split; [exact Ht |]. split; [| split].
  - unfold DetailPCSection.totalPages. rewrite Ht, ceilDiv_1.
    destruct (length (DetailPCSection.orderRows details)); simpl; lia.
  - intros Hp. unfold DetailPCSection.paginatedOrders.
    rewrite (outerLoop_spec p details 0) by lia.
    rewrite Nat.sub_0_r. apply firstn_1_skipn.
  - intros Hp. unfold DetailPCSection.prevPage, DetailPCSection.nextPage. lia.
Qed.

Lemma DetailPCSection_pager_witness :
  let oA := DetailPCSection.mkOrderDetail 1 "a" "A" None in
  let oB := DetailPCSection.mkOrderDetail 2 "b" "B" None in
  let oC := DetailPCSection.mkOrderDetail 3 "c" "C" None in
  let b1 := DetailPCSection.mkSimBatchDetail 10 "sim_batch" "pallet" (Some [oA; oB]) in
  let b2 := DetailPCSection.mkSimBatchDetail 11 "sim_batch" "empty" None in
  let b3 := DetailPCSection.mkSimBatchDetail (-1) "order" "Order-3" (Some [oC]) in
  DetailPCSection.paginatedOrders [b1; b2; b3] 3 = [(b3, oC)]
  /\ (1 <= DetailPCSection.prevPage 3 <= 3)%nat
  /\ (1 <= DetailPCSection.nextPage [b1; b2; b3] 3 <= 3)%nat.
Proof.
  intros oA oB oC b1 b2 b3.
  destruct (DetailPCSection_pager [b1; b2; b3] 3) as (_ & _ & Hpage & Hbtn).
  split.
  - apply Hpage. lia.
  - apply Hbtn. change (DetailPCSection.totalPages [b1; b2; b3]) with 3%nat. lia.
Defined.
